(** * GENEA_2020: training harness, datasets and Seq2Seq systems

    A shallow embedding of [tools/trainer.py], [tools/datasets.py] and
    [Seq2Seq/system.py].

    Python floats ([loss.item()], [math.inf], the literals of the
    hyper-parameters) are IEEE 754 binary64 values and are modelled by
    [spec_float] at precision 53; Python integers are [Z].  What the
    tensor framework computes (network forward passes, [MSELoss],
    [torch.norm], [binary_cross_entropy_with_logits], optimizer updates,
    random sampling) is not part of the repository: each module takes
    these operations as the variables of a section and embeds the code
    written around them. *)

From Stdlib Require Import ZArith List Bool Lia String.
From Stdlib Require Import Floats.SpecFloat.
Import ListNotations.
Open Scope Z_scope.

(** ** Python floats *)

Module PyFloat.

Definition float : Type := spec_float.

Definition prec : Z := 53.
Definition emax : Z := 1024.

(** [math.inf] *)
Definition inf : float := S754_infinity false.
Definition nan : float := S754_nan.

(** [float(n)] for a Python integer [n]; this is also the conversion
    applied to the integer operand of a mixed [float op int]. *)
Definition of_int (n : Z) : float := binary_normalize prec emax n 0 false.

Definition add (x y : float) : float := SFadd prec emax x y.
Definition mul (x y : float) : float := SFmul prec emax x y.
Definition div (x y : float) : float := SFdiv prec emax x y.

(** [x < y], [x <= y] and [x == y]: all three are [False] as soon as an
    operand is NaN. *)
Definition ltb (x y : float) : bool := SFltb x y.
Definition leb (x y : float) : bool := SFleb x y.
Definition eqb (x y : float) : bool := SFeqb x y.

Definition is_nan (x : float) : bool :=
  match x with S754_nan => true | _ => false end.

(** A decimal literal [p / q] with [p] and [q] exactly representable is
    the binary64 value nearest to the quotient, which is what a
    correctly rounded division returns: [lit 1 1000] is [1e-3]. *)
Definition lit (p q : Z) : float := div (of_int p) (of_int q).

(** [x / n] for a float [x] and an integer [n]: Python raises
    [ZeroDivisionError] when [n] is zero. *)
Definition truediv_int (x : float) (n : Z) : option float :=
  if n =? 0 then None else Some (div x (of_int n)).

(** [0 + x1 + ... + xk] as the loops compute it: the accumulator starts
    at the integer [0], which becomes [0.0] at the first addition. *)
Definition accumulate (acc : float) (xs : list float) : float :=
  fold_left add xs acc.

Lemma ltb_not_nan_l x y : ltb x y = true -> is_nan x = false.
Proof. destruct x; simpl; auto; discriminate. Qed.

Lemma ltb_not_nan_r x y : ltb x y = true -> is_nan y = false.
Proof.
  destruct y; simpl; auto.
  unfold ltb, SFltb; destruct x; simpl; discriminate.
Qed.

Lemma ltb_nan_l y : ltb nan y = false.
Proof. reflexivity. Qed.

Lemma ltb_nan_r x : ltb x nan = false.
Proof. destruct x; reflexivity. Qed.

Lemma ltb_irrefl x : ltb x x = false.
Proof.
  unfold ltb, SFltb.
  destruct x as [[]|[]| |[] m e]; simpl; auto;
    rewrite Z.compare_refl, Pos.compare_cont_refl; reflexivity.
Qed.

Lemma ltb_leb x y : ltb x y = true -> leb x y = true.
Proof.
  unfold ltb, leb, SFltb, SFleb.
  destruct (SFcompare x y) as [[]|]; auto.
Qed.

Lemma leb_refl x : is_nan x = false -> leb x x = true.
Proof.
  unfold leb, SFleb.
  destruct x as [[]|[]| |[] m e]; simpl; auto; try discriminate; intros _;
    rewrite Z.compare_refl, Pos.compare_cont_refl; reflexivity.
Qed.

Lemma eqb_refl x : is_nan x = false -> eqb x x = true.
Proof.
  unfold eqb, SFeqb.
  destruct x as [[]|[]| |[] m e]; simpl; auto; try discriminate; intros _;
    rewrite Z.compare_refl, Pos.compare_cont_refl; reflexivity.
Qed.

Lemma compare_cont_swap mx my :
  Pos.compare_cont Eq my mx = CompOpp (Pos.compare_cont Eq mx my).
Proof.
  change (Pos.compare my mx = CompOpp (Pos.compare mx my)).
  apply Pos.compare_antisym.
Qed.

Lemma compare_antisym x y c :
  SFcompare x y = Some c -> SFcompare y x = Some (CompOpp c).
Proof.
  destruct x as [[]|[]| |[] mx ex], y as [[]|[]| |[] my ey]; simpl;
    intros H; inversion H; subst; clear H; simpl; auto;
    rewrite (Z.compare_antisym ex ey), (compare_cont_swap mx my);
    destruct (ex ?= ey); simpl; auto;
    destruct (Pos.compare_cont Eq mx my); simpl; auto.
Qed.

(** Two operands that are not NaN are always comparable. *)
Lemma compare_total x y :
  is_nan x = false -> is_nan y = false -> exists c, SFcompare x y = Some c.
Proof.
  destruct x as [[]|[]| |[] mx ex], y as [[]|[]| |[] my ey]; simpl;
    intros; try discriminate; eauto.
Qed.

Lemma not_ltb_leb x y :
  is_nan x = false -> is_nan y = false -> ltb x y = false -> leb y x = true.
Proof.
  intros Hx Hy H. destruct (compare_total x y Hx Hy) as [c Hc].
  unfold ltb, SFltb in H. unfold leb, SFleb.
  rewrite (compare_antisym _ _ _ Hc). rewrite Hc in H.
  destruct c; simpl; auto; discriminate.
Qed.

Lemma leb_not_ltb x y : leb x y = true -> ltb y x = false.
Proof.
  unfold ltb, leb, SFltb, SFleb. intros H.
  destruct (SFcompare x y) as [c|] eqn:Hc; try discriminate.
  rewrite (compare_antisym _ _ _ Hc). destruct c; simpl; auto; discriminate.
Qed.

(** Finite operands of equal sign are ordered by exponent, then by
    mantissa. *)
Definition lex (e1 : Z) (m1 : positive) (e2 : Z) (m2 : positive) : comparison :=
  match e1 ?= e2 with
  | Lt => Lt
  | Gt => Gt
  | Eq => Pos.compare_cont Eq m1 m2
  end.

Lemma lex_Lt e1 m1 e2 m2 :
  lex e1 m1 e2 m2 = Lt <-> (e1 < e2 \/ (e1 = e2 /\ (m1 < m2)%positive)).
Proof.
  unfold lex. change (Pos.compare_cont Eq m1 m2) with (Pos.compare m1 m2).
  destruct (Z.compare_spec e1 e2), (Pos.compare_spec m1 m2);
    split; intros; try discriminate; try lia; auto.
Qed.

Lemma lex_Gt e1 m1 e2 m2 :
  lex e1 m1 e2 m2 = Gt <-> (e2 < e1 \/ (e1 = e2 /\ (m2 < m1)%positive)).
Proof.
  unfold lex. change (Pos.compare_cont Eq m1 m2) with (Pos.compare m1 m2).
  destruct (Z.compare_spec e1 e2), (Pos.compare_spec m1 m2);
    split; intros; try discriminate; try lia; auto.
Qed.

Lemma lex_opp e1 m1 e2 m2 :
  match e1 ?= e2 with
  | Eq => CompOpp (Pos.compare_cont Eq m1 m2)
  | Lt => Gt
  | Gt => Lt
  end = CompOpp (lex e1 m1 e2 m2).
Proof. unfold lex. destruct (e1 ?= e2); reflexivity. Qed.

Lemma ltb_trans x y z : ltb x y = true -> ltb y z = true -> ltb x z = true.
Proof.
  unfold ltb, SFltb.
  destruct x as [[]|[]| |[] mx ex], y as [[]|[]| |[] my ey],
           z as [[]|[]| |[] mz ez];
    simpl; intros H1 H2; try discriminate; auto.
  - rewrite lex_opp in *.
    destruct (lex ex mx ey my) eqn:E1; try discriminate.
    destruct (lex ey my ez mz) eqn:E2; try discriminate.
    apply lex_Gt in E1. apply lex_Gt in E2.
    assert (E : lex ex mx ez mz = Gt) by (apply lex_Gt; lia).
    rewrite E. reflexivity.
  - fold (lex ex mx ey my) in H1. fold (lex ey my ez mz) in H2.
    fold (lex ex mx ez mz).
    destruct (lex ex mx ey my) eqn:E1; try discriminate.
    destruct (lex ey my ez mz) eqn:E2; try discriminate.
    apply lex_Lt in E1. apply lex_Lt in E2.
    assert (E : lex ex mx ez mz = Lt) by (apply lex_Lt; lia).
    rewrite E. reflexivity.
Qed.

(** Operands that compare equal ([0.0] and [-0.0] included) compare alike
    with every third one. *)
Lemma compare_Eq_r x y z :
  SFcompare y z = Some Eq -> SFcompare x y = SFcompare x z.
Proof.
  destruct x as [[]|[]| |[] mx ex], y as [[]|[]| |[] my ey],
           z as [[]|[]| |[] mz ez];
    simpl; intros H; try discriminate; auto;
    destruct (Z.compare_spec ey ez); try discriminate;
    destruct (Pos.compare_cont Eq my mz) eqn:E; try discriminate;
    apply Pos.compare_eq in E; subst; reflexivity.
Qed.

Lemma compare_Eq_l x y z :
  SFcompare x y = Some Eq -> SFcompare x z = SFcompare y z.
Proof.
  destruct x as [[]|[]| |[] mx ex], y as [[]|[]| |[] my ey],
           z as [[]|[]| |[] mz ez];
    simpl; intros H; try discriminate; auto;
    destruct (Z.compare_spec ex ey); try discriminate;
    destruct (Pos.compare_cont Eq mx my) eqn:E; try discriminate;
    apply Pos.compare_eq in E; subst; reflexivity.
Qed.

Lemma ltb_leb_trans x y z : ltb x y = true -> leb y z = true -> ltb x z = true.
Proof.
  intros H1 H2. unfold leb, SFleb in H2.
  destruct (SFcompare y z) as [[]|] eqn:E; try discriminate.
  - unfold ltb, SFltb in *. rewrite <- (compare_Eq_r x y z E). exact H1.
  - apply ltb_trans with y; auto. unfold ltb, SFltb. rewrite E. reflexivity.
Qed.

Lemma eqb_ltb_trans x y z : eqb x y = true -> ltb y z = true -> ltb x z = true.
Proof.
  intros H1 H2. unfold eqb, SFeqb in H1.
  destruct (SFcompare x y) as [[]|] eqn:E; try discriminate.
  unfold ltb, SFltb in *. rewrite (compare_Eq_l x y z E). exact H2.
Qed.

Lemma ltb_inf x : ltb x inf = true <-> is_nan x = false /\ x <> inf.
Proof.
  unfold ltb, SFltb, inf.
  destruct x as [[]|[]| |[] m e]; simpl; split; intros H;
    try discriminate; try (split; [reflexivity | discriminate]); auto;
    destruct H as [H1 H2]; try discriminate; congruence.
Qed.

Lemma leb_inf x : is_nan x = false -> leb x inf = true.
Proof. destruct x as [[]|[]| |[] m e]; simpl; auto; discriminate. Qed.

End PyFloat.

(** ** Exceptions and results *)

Inductive exn : Type :=
| ZeroDivisionError
| IndexError
| ValueError
| RuntimeError.

Inductive result (A : Type) : Type :=
| Ok (a : A)
| Raise (e : exn).

Arguments Ok {A} a.
Arguments Raise {A} e.

Definition rbind {A B} (c : result A) (k : A -> result B) : result B :=
  match c with
  | Ok a => k a
  | Raise e => Raise e
  end.

(** ** [tools/trainer.py] *)

Module Trainer.

Import PyFloat.

(** What [print] writes, one constructor per format string. *)
Inductive line : Type :=
| BatchLine (k n : Z) (avg : float)  (* '\rBatch: %d of %d\tLoss: %4f' *)
| Newline                            (* print() *)
| EpochLine (k : Z)                  (* 'Epoch %d' *)
| NewBestLine (loss : float)         (* 'New best loss on test: %4f' *)
| PrevBestLine (k : Z)               (* 'Previous best epoch: %d' *)
| ExitLine.                          (* 'Exiting by patience' *)

Section MotionTrainer.

(** The framework.  [net] is the [nn.Module] together with the state of
    its Adam optimizer; a [DataLoader] is the list of batches one pass
    over it yields, the same at every pass (the reshuffling of a
    shuffling loader is not modelled). *)
Variables features labels prediction net state_dict : Type.
Variable set_train : net -> net.                  (* model.train() *)
Variable set_eval : net -> net.                   (* model.eval() *)
Variable forward : net -> features -> prediction. (* model(features) *)
Variable criterion : prediction -> labels -> float.
                                      (* criterion(predict, labels).item() *)
Variable optimizer_step : net -> features -> labels -> net.
                        (* zero_grad(); loss.backward(); optimizer.step() *)
Variable get_state_dict : net -> state_dict.      (* model.state_dict() *)

Definition batch : Type := (features * labels)%type.

Record MotionTrainer : Type := mkMotionTrainer {
  model : net;
  train_iterator : list batch;
  test_iterator : list batch;
  best_loss : float;
  model_name : string;
  best_epoch : Z
}.

(** The trainer object, the standard output and the calls of
    [torch.save] made so far (file name and contents, oldest first). *)
Record world : Type := mkWorld {
  self : MotionTrainer;
  stdout : list line;
  files : list (string * state_dict)
}.

Definition M (A : Type) : Type := world -> result (A * world).

Definition ret {A} (a : A) : M A := fun w => Ok (a, w).

Definition bind {A B} (c : M A) (k : A -> M B) : M B :=
  fun w => match c w with
           | Ok (a, w') => k a w'
           | Raise e => Raise e
           end.

Definition raise {A} (e : exn) : M A := fun _ => Raise e.

Notation "x <- c ;; k" := (bind c (fun x => k))
  (at level 61, c at next level, right associativity).
Notation "c ;;; k" := (bind c (fun _ => k))
  (at level 61, right associativity).

Definition get {A} (f : MotionTrainer -> A) : M A := fun w => Ok (f (self w), w).

Definition update (f : MotionTrainer -> MotionTrainer) : M unit :=
  fun w => Ok (tt, mkWorld (f (self w)) (stdout w) (files w)).

Definition print (l : line) : M unit :=
  fun w => Ok (tt, mkWorld (self w) (stdout w ++ [l]) (files w)).

Definition torch_save (sd : state_dict) (name : string) : M unit :=
  fun w => Ok (tt, mkWorld (self w) (stdout w) (files w ++ [(name, sd)])).

Definition set_model (m : net) (t : MotionTrainer) : MotionTrainer :=
  mkMotionTrainer m (train_iterator t) (test_iterator t) (best_loss t)
                  (model_name t) (best_epoch t).

Definition set_best_loss (x : float) (t : MotionTrainer) : MotionTrainer :=
  mkMotionTrainer (model t) (train_iterator t) (test_iterator t) x
                  (model_name t) (best_epoch t).

Definition set_best_epoch (e : Z) (t : MotionTrainer) : MotionTrainer :=
  mkMotionTrainer (model t) (train_iterator t) (test_iterator t) (best_loss t)
                  (model_name t) e.

(** [float / int] inside the monad. *)
Definition truediv (x : float) (n : Z) : M float :=
  match truediv_int x n with
  | Some q => ret q
  | None => raise ZeroDivisionError
  end.

Definition len {A} (l : list A) : Z := Z.of_nat (List.length l).

(** [MotionTrainer.__init__]; [criterion] and the optimizer over
    [model.parameters()] are the section's variables. *)
Definition init (train_it test_it : list batch) (m : net) (name : string)
  : MotionTrainer :=
  mkMotionTrainer m train_it test_it inf name 0.

(** The body of the loop of [train_epoch], from batch [batch_idx] on;
    [n] is [len(self.train_iterator)]. *)
Fixpoint train_batches (n batch_idx : Z) (batches : list batch)
  (total_loss : float) : M unit :=
  match batches with
  | [] => ret tt
  | (x, y) :: rest =>
      m <- get model ;;
      let predict := forward m x in
      let loss := criterion predict y in
      let total_loss := add total_loss loss in
      update (set_model (optimizer_step m x y)) ;;;
      avg <- truediv total_loss (batch_idx + 1) ;;
      print (BatchLine (batch_idx + 1) n avg) ;;;
      train_batches n (batch_idx + 1) rest total_loss
  end.

Definition train_epoch : M unit :=
  m <- get model ;;
  update (set_model (set_train m)) ;;;
  it <- get train_iterator ;;
  train_batches (len it) 0 it (of_int 0) ;;;
  print Newline.

(** The body of the loop of [test_epoch]; returns the final
    [total_loss]. *)
Fixpoint test_batches (n batch_idx : Z) (batches : list batch)
  (total_loss : float) : M float :=
  match batches with
  | [] => ret total_loss
  | (x, y) :: rest =>
      m <- get model ;;
      let predict := forward m x in
      let loss := criterion predict y in
      let total_loss := add total_loss loss in
      avg <- truediv total_loss (batch_idx + 1) ;;
      print (BatchLine (batch_idx + 1) n avg) ;;;
      test_batches n (batch_idx + 1) rest total_loss
  end.

Definition test_epoch : M float :=
  m <- get model ;;
  update (set_model (set_eval m)) ;;;
  it <- get test_iterator ;;
  total_loss <- test_batches (len it) 0 it (of_int 0) ;;
  print Newline ;;;
  loss <- truediv total_loss (len it) ;;
  ret loss.

(** One iteration of the loop of [train]: the value of the local
    [test_loss] and whether the iteration ended in [break]. *)
Definition epoch_body (epoch patience : Z) : M (float * bool) :=
  print (EpochLine (epoch + 1)) ;;;
  train_epoch ;;;
  test_loss <- test_epoch ;;
  best <- get best_loss ;;
  (if ltb test_loss best then
     print (NewBestLine test_loss) ;;;
     update (set_best_loss test_loss) ;;;
     update (set_best_epoch epoch) ;;;
     m <- get model ;;
     name <- get model_name ;;
     torch_save (get_state_dict m) name
   else
     b <- get best_epoch ;;
     print (PrevBestLine (b + 1))) ;;;
  b <- get best_epoch ;;
  if epoch - b >? patience then
    print ExitLine ;;; ret (test_loss, true)
  else
    ret (test_loss, false).

(** [range(n)] *)
Definition range (n : Z) : list Z := map Z.of_nat (seq 0 (Z.to_nat n)).

Fixpoint for_epochs (epochs : list Z) (patience : Z) : M unit :=
  match epochs with
  | [] => ret tt
  | epoch :: rest =>
      r <- epoch_body epoch patience ;;
      if snd r then ret tt else for_epochs rest patience
  end.

Definition train (num_epoches patience : Z) : M unit :=
  for_epochs (range num_epoches) patience.

(** The world in which a new trainer starts: nothing printed, nothing
    saved. *)
Definition fresh (train_it test_it : list batch) (m : net) (name : string)
  : world :=
  mkWorld (init train_it test_it m name) [] [].

(** *** The epochs of a run

    The run of the loop of [train] as the list of its completed
    iterations: the epoch index, the world before and after, the test
    loss and whether the iteration left the loop.  An iteration that
    raises ends the list. *)
Record epoch_run : Type := mkEpochRun {
  ep : Z;
  before : world;
  loss : float;
  after : world;
  stopped : bool
}.

Fixpoint history (epochs : list Z) (patience : Z) (w : world) : list epoch_run :=
  match epochs with
  | [] => []
  | epoch :: rest =>
      match epoch_body epoch patience w with
      | Raise _ => []
      | Ok ((l, stop), w') =>
          mkEpochRun epoch w l w' stop
          :: (if stop then [] else history rest patience w')
      end
  end.

(** The best of the given test losses, [math.inf] when there is none:
    a later loss replaces the best so far when it compares below it. *)
Definition best_from (b : float) (losses : list float) : float :=
  fold_left (fun b x => if ltb x b then x else b) losses b.

Definition best_of (losses : list float) : float := best_from inf losses.

(** The per-batch losses of the network [m] on the batches [bs]. *)
Definition batch_losses (m : net) (bs : list batch) : list float :=
  map (fun b => criterion (forward m (fst b)) (snd b)) bs.

(** [torch.save] was called once during the iteration, with the model's
    [state_dict] and [model_name]. *)
Definition checkpoint_written (r : epoch_run) : Prop :=
  files (after r) =
  files (before r)
  ++ [(model_name (self (after r)), get_state_dict (model (self (after r))))].

(** The network after one pass of the optimizer over the batches. *)
Definition fit (m : net) (bs : list batch) : net :=
  fold_left (fun m b => optimizer_step m (fst b) (snd b)) bs m.

(** The network an epoch leaves behind, and the test loss it computes. *)
Definition epoch_model (t : MotionTrainer) : net :=
  set_eval (fit (set_train (model t)) (train_iterator t)).

Definition epoch_test_loss (t : MotionTrainer) : float :=
  div (accumulate (of_int 0) (batch_losses (epoch_model t) (test_iterator t)))
      (of_int (len (test_iterator t))).

(** The lines that mark the start of an epoch and the exit by patience,
    in the order in which they were printed. *)
Definition is_mark (l : line) : bool :=
  match l with
  | EpochLine _ | ExitLine => true
  | _ => false
  end.

Definition marks (out : list line) : list line := filter is_mark out.

(** The marks of one iteration of the loop of [train]. *)
Definition epoch_marks (epoch : Z) (stop : bool) : list line :=
  EpochLine (epoch + 1) :: (if stop then [ExitLine] else []).

(** The trainer after an epoch that started from [t] with index
    [epoch]. *)
Definition epoch_trainer (epoch : Z) (t : MotionTrainer) : MotionTrainer :=
  let l := epoch_test_loss t in
  if ltb l (best_loss t) then
    mkMotionTrainer (epoch_model t) (train_iterator t) (test_iterator t)
                    l (model_name t) epoch
  else
    mkMotionTrainer (epoch_model t) (train_iterator t) (test_iterator t)
                    (best_loss t) (model_name t) (best_epoch t).

Definition epoch_files (w : world) : list (string * state_dict) :=
  let t := self w in
  if ltb (epoch_test_loss t) (best_loss t) then
    files w ++ [(model_name t, get_state_dict (epoch_model t))]
  else files w.

(** What one completed iteration does, read off its record *)
Definition step_ok (patience : Z) (r : epoch_run) : Prop :=
  test_iterator (self (before r)) <> [] /\
  loss r = epoch_test_loss (self (before r)) /\
  self (after r) = epoch_trainer (ep r) (self (before r)) /\
  files (after r) = epoch_files (before r) /\
  stopped r = (ep r - best_epoch (self (after r)) >? patience) /\
  exists out, stdout (after r) = stdout (before r) ++ out /\
              marks out = epoch_marks (ep r) (stopped r).

(** The world in which [train] returns after the iterations [h]. *)
Definition final_world (h : list epoch_run) (w : world) : world :=
  last (map after h) w.

(** The losses of the first [k] epochs. *)
Definition losses_upto (h : list epoch_run) (k : nat) : list float :=
  map loss (firstn k h).

(** What holds of the trainer after [k] epochs. *)
Definition tracked (h : list epoch_run) (k : nat) (t : MotionTrainer) : Prop :=
  let L := losses_upto h k in
  best_loss t = best_of L /\
  0 <= best_epoch t <= Z.max 0 (Z.of_nat k - 1) /\
  (ltb (best_loss t) inf = true ->
   nth_error L (Z.to_nat (best_epoch t)) = Some (best_loss t)) /\
  (ltb (best_loss t) inf = false -> best_epoch t = 0) /\
  (forall j x, nth_error L j = Some x -> Z.of_nat j < best_epoch t ->
               eqb x (best_loss t) = false).

(** The checkpoint an iteration writes, if any. *)
Definition written (r : epoch_run) : list (string * state_dict) :=
  if ltb (loss r) (best_loss (self (before r))) then
    [(model_name (self (after r)), get_state_dict (model (self (after r))))]
  else [].

(** *** The batch loops *)

Lemma marks_app a b : marks (a ++ b) = marks a ++ marks b.
Proof. apply filter_app. Qed.

Lemma truediv_pos x n : 0 < n -> truediv x n = ret (div x (of_int n)).
Proof.
  intros H. unfold truediv, truediv_int.
  destruct (Z.eqb_spec n 0); [lia | reflexivity].
Qed.

Lemma train_batches_run bs : forall n idx total w, 0 <= idx ->
  exists out,
    train_batches n idx bs total w =
    Ok (tt, mkWorld (set_model (fit (model (self w)) bs) (self w))
                    (stdout w ++ out) (files w)) /\
    marks out = [].
Proof.
  induction bs as [|[x y] bs IH]; intros n idx total w Hidx.
  - exists []. destruct w as [[m a b c d e] o f]. simpl.
    rewrite app_nil_r. split; reflexivity.
  - simpl train_batches. unfold bind at 1. unfold get at 1.
    unfold bind at 1. unfold update at 1.
    rewrite truediv_pos by lia.
    unfold bind at 1. unfold ret at 1.
    unfold bind at 1. unfold print at 1. cbn [self stdout files].
    match goal with |- context [train_batches n (idx + 1) bs ?t ?w'] =>
      destruct (IH n (idx + 1) t w') as (out & Hout & Hm); [lia|];
      rewrite Hout
    end.
    cbn [self stdout files model set_model train_iterator test_iterator
         best_loss model_name best_epoch fit fold_left fst snd].
    exists (BatchLine (idx + 1) n
              (div (add total (criterion (forward (model (self w)) x) y))
                   (of_int (idx + 1))) :: out).
    rewrite <- app_assoc. split; [reflexivity | exact Hm].
Qed.

Lemma test_batches_run bs : forall n idx total w, 0 <= idx ->
  exists out,
    test_batches n idx bs total w =
    Ok (accumulate total (batch_losses (model (self w)) bs),
        mkWorld (self w) (stdout w ++ out) (files w)) /\
    marks out = [].
Proof.
  induction bs as [|[x y] bs IH]; intros n idx total w Hidx.
  - exists []. destruct w as [t o f]. simpl. rewrite app_nil_r.
    split; reflexivity.
  - simpl test_batches. unfold bind at 1. unfold get at 1.
    rewrite truediv_pos by lia.
    unfold bind at 1. unfold ret at 1.
    unfold bind at 1. unfold print at 1. cbn [self stdout files].
    match goal with |- context [test_batches n (idx + 1) bs ?t ?w'] =>
      destruct (IH n (idx + 1) t w') as (out & Hout & Hm); [lia|];
      rewrite Hout
    end.
    cbn [self stdout files].
    exists (BatchLine (idx + 1) n
              (div (add total (criterion (forward (model (self w)) x) y))
                   (of_int (idx + 1))) :: out).
    rewrite <- app_assoc. split; [reflexivity | exact Hm].
Qed.

Lemma train_epoch_run w :
  exists out,
    train_epoch w =
    Ok (tt, mkWorld (set_model (fit (set_train (model (self w)))
                                    (train_iterator (self w))) (self w))
                    (stdout w ++ out) (files w)) /\
    marks out = [].
Proof.
  unfold train_epoch. unfold bind at 1. unfold get at 1.
  unfold bind at 1. unfold update at 1.
  unfold bind at 1. unfold get at 1. cbn [self stdout files].
  unfold bind at 1.
  match goal with |- context [train_batches ?n 0 ?bs ?t ?w'] =>
    destruct (train_batches_run bs n 0 t w') as (out & Hout & Hm); [lia|];
    rewrite Hout
  end.
  unfold print.
  cbn [self stdout files model set_model train_iterator test_iterator
       best_loss model_name best_epoch].
  exists (out ++ [Newline]). rewrite <- app_assoc. split; [reflexivity|].
  rewrite marks_app, Hm. reflexivity.
Qed.

(** [test_epoch] raises on an empty test iterator (the final division
    is by [len(self.test_iterator)]); otherwise it returns the sum of the
    per-batch losses divided by the number of batches. *)
Lemma test_epoch_run w :
  (test_iterator (self w) = [] -> test_epoch w = Raise ZeroDivisionError) /\
  (test_iterator (self w) <> [] ->
   exists out,
     test_epoch w =
     Ok (div (accumulate (of_int 0)
                (batch_losses (set_eval (model (self w)))
                              (test_iterator (self w))))
             (of_int (len (test_iterator (self w)))),
         mkWorld (set_model (set_eval (model (self w))) (self w))
                 (stdout w ++ out) (files w)) /\
     marks out = []).
Proof.
  split; intros H;
    unfold test_epoch; unfold bind at 1; unfold get at 1;
    unfold bind at 1; unfold update at 1;
    unfold bind at 1; unfold get at 1; cbn [self stdout files];
    unfold bind at 1;
    match goal with |- context [test_batches ?n 0 ?bs ?t ?w'] =>
      destruct (test_batches_run bs n 0 t w') as (out & Hout & Hm); [lia|];
      rewrite Hout
    end;
    cbn [self stdout files model set_model train_iterator test_iterator
         best_loss model_name best_epoch];
    unfold bind at 1; unfold print at 1; cbn [self stdout files].
  - rewrite H. reflexivity.
  - rewrite truediv_pos.
    + unfold bind, ret. exists (out ++ [Newline]).
      rewrite <- app_assoc. split; [reflexivity|].
      rewrite marks_app, Hm. reflexivity.
    + unfold len. destruct (test_iterator (self w)); [congruence | simpl; lia].
Qed.

(** *** One epoch *)

Lemma epoch_body_run epoch patience w :
  (test_iterator (self w) = [] ->
   epoch_body epoch patience w = Raise ZeroDivisionError) /\
  (test_iterator (self w) <> [] ->
   exists out,
     epoch_body epoch patience w =
     Ok ((epoch_test_loss (self w),
          epoch - best_epoch (epoch_trainer epoch (self w)) >? patience),
         mkWorld (epoch_trainer epoch (self w)) (stdout w ++ out)
                 (epoch_files w)) /\
     marks out =
     epoch_marks epoch
       (epoch - best_epoch (epoch_trainer epoch (self w)) >? patience)).
Proof.
  split; intros H;
    unfold epoch_body; unfold bind at 1; unfold print at 1;
    unfold bind at 1;
    match goal with |- context [train_epoch ?w'] =>
      destruct (train_epoch_run w') as (out1 & H1 & Hm1); rewrite H1
    end;
    cbn [self stdout files];
    unfold bind at 1;
    match goal with |- context [test_epoch ?w'] =>
      destruct (test_epoch_run w') as [Hempty Hrun]
    end.
  - rewrite Hempty; [reflexivity | exact H].
  - destruct Hrun as (out2 & H2 & Hm2); [exact H|]. rewrite H2.
    clear H1 H2 Hempty.
    cbn [self stdout files model set_model train_iterator test_iterator
         best_loss model_name best_epoch].
    unfold bind at 1. unfold get at 1.
    cbn [self stdout files model set_model train_iterator test_iterator
         best_loss model_name best_epoch].
    unfold epoch_trainer, epoch_files.
    fold (epoch_model (self w)). fold (epoch_test_loss (self w)).
    destruct (ltb (epoch_test_loss (self w)) (best_loss (self w))) eqn:E.
    + unfold bind, print, update, get, torch_save, ret.
      cbn [self stdout files model set_model set_best_loss set_best_epoch
           train_iterator test_iterator best_loss model_name best_epoch
           fst snd].
      destruct (epoch - epoch >? patience);
        cbn [self stdout files model set_model set_best_loss set_best_epoch
             train_iterator test_iterator best_loss model_name best_epoch];
        eexists; (split; [rewrite <- !app_assoc; reflexivity|]);
        rewrite !marks_app, Hm1, Hm2; reflexivity.
    + unfold bind, print, update, get, torch_save, ret.
      cbn [self stdout files model set_model set_best_loss set_best_epoch
           train_iterator test_iterator best_loss model_name best_epoch
           fst snd].
      destruct (epoch - best_epoch (self w) >? patience);
        cbn [self stdout files model set_model set_best_loss set_best_epoch
             train_iterator test_iterator best_loss model_name best_epoch];
        eexists; (split; [rewrite <- !app_assoc; reflexivity|]);
        rewrite !marks_app, Hm1, Hm2; reflexivity.
Qed.

(** *** The run of [train] *)

Lemma epoch_trainer_test_iterator epoch t :
  test_iterator (epoch_trainer epoch t) = test_iterator t.
Proof. unfold epoch_trainer. destruct (ltb _ _); reflexivity. Qed.

Lemma epoch_trainer_model_name epoch t :
  model_name (epoch_trainer epoch t) = model_name t.
Proof. unfold epoch_trainer. destruct (ltb _ _); reflexivity. Qed.

Lemma epoch_trainer_model epoch t :
  model (epoch_trainer epoch t) = epoch_model t.
Proof. unfold epoch_trainer. destruct (ltb _ _); reflexivity. Qed.

Lemma epoch_trainer_best_loss epoch t :
  best_loss (epoch_trainer epoch t) =
  if ltb (epoch_test_loss t) (best_loss t) then epoch_test_loss t
  else best_loss t.
Proof. unfold epoch_trainer. destruct (ltb _ _); reflexivity. Qed.

Lemma epoch_trainer_best_epoch epoch t :
  best_epoch (epoch_trainer epoch t) =
  if ltb (epoch_test_loss t) (best_loss t) then epoch else best_epoch t.
Proof. unfold epoch_trainer. destruct (ltb _ _); reflexivity. Qed.

Lemma history_empty_test epochs patience w :
  test_iterator (self w) = [] -> history epochs patience w = [].
Proof.
  intros H. destruct epochs as [|e rest]; [reflexivity|]. simpl.
  destruct (epoch_body_run e patience w) as [Hr _]. rewrite (Hr H). reflexivity.
Qed.

Lemma history_cons e rest patience w :
  test_iterator (self w) <> [] ->
  exists r,
    history (e :: rest) patience w =
    r :: (if stopped r then [] else history rest patience (after r)) /\
    epoch_body e patience w = Ok ((loss r, stopped r), after r) /\
    ep r = e /\ before r = w /\ step_ok patience r.
Proof.
  intros H. destruct (epoch_body_run e patience w) as [_ Hr].
  destruct (Hr H) as (out & Hout & Hm). simpl. rewrite Hout.
  eexists (mkEpochRun e w _ _ _). cbn [ep before loss after stopped].
  split; [reflexivity|]. split; [reflexivity|].
  split; [reflexivity|]. split; [reflexivity|].
  unfold step_ok. cbn [ep before loss after stopped self stdout files].
  repeat split; auto. exists out. split; [reflexivity | exact Hm].
Qed.

(** The iterations of a run are chained: the [i]-th one handles the
    [i]-th epoch, starts where the previous one ended, and only the last
    one may have left the loop. *)
Lemma history_chain epochs : forall patience w i r,
  nth_error (history epochs patience w) i = Some r ->
  step_ok patience r /\
  nth_error epochs i = Some (ep r) /\
  match i with
  | O => before r = w
  | S j => exists r', nth_error (history epochs patience w) j = Some r' /\
                      before r = after r' /\ stopped r' = false
  end /\
  (stopped r = true -> List.length (history epochs patience w) = S i).
Proof.
  induction epochs as [|e rest IH]; intros patience w i r Hi.
  - destruct i; discriminate.
  - destruct (test_iterator (self w)) eqn:Et.
    { rewrite history_empty_test in Hi by exact Et. destruct i; discriminate. }
    destruct (history_cons e rest patience w) as (r0 & Hh & _ & He & Hb & Hs);
      [congruence|].
    rewrite Hh in *. destruct i as [|i]; simpl in Hi.
    + inversion Hi; subst r0.
      split; [exact Hs|]. split; [simpl; congruence|]. split; [exact Hb|].
      intros St. rewrite St. reflexivity.
    + destruct (stopped r0) eqn:St; [destruct i; discriminate|].
      destruct (IH patience (after r0) i r Hi) as (Hs' & He' & Hl & Hstop).
      split; [exact Hs'|]. split; [exact He'|]. split.
      * destruct i as [|i].
        -- exists r0. simpl. auto.
        -- destruct Hl as (r' & Hr' & Hb' & St'). exists r'. simpl. auto.
      * intros Hx. simpl. rewrite (Hstop Hx). reflexivity.
Qed.

(** *** The best of a list of losses *)

Lemma best_from_snoc b l x :
  best_from b (l ++ [x]) =
  if ltb x (best_from b l) then x else best_from b l.
Proof. unfold best_from. rewrite fold_left_app. reflexivity. Qed.

Lemma best_from_not_nan l : forall b,
  is_nan b = false -> is_nan (best_from b l) = false.
Proof.
  induction l as [|x l IH]; intros b Hb; [exact Hb|].
  simpl. apply IH. destruct (ltb x b) eqn:E; [|exact Hb].
  exact (ltb_not_nan_l _ _ E).
Qed.

Lemma best_of_not_nan l : is_nan (best_of l) = false.
Proof. apply best_from_not_nan. reflexivity. Qed.

(** No loss of the list is below the best. *)
Lemma best_of_lower l : forall x, In x l -> ltb x (best_of l) = false.
Proof.
  induction l as [|y l IH] using rev_ind; intros x Hx; [destruct Hx|].
  unfold best_of in *. rewrite best_from_snoc.
  apply in_app_or in Hx. destruct (ltb y (best_from inf l)) eqn:E.
  - destruct Hx as [Hx|[Hx|[]]].
    + destruct (ltb x y) eqn:Exy; [|reflexivity].
      pose proof (ltb_trans _ _ _ Exy E) as C.
      rewrite (IH x Hx) in C. discriminate.
    + subst. apply ltb_irrefl.
  - destruct Hx as [Hx|[Hx|[]]]; [auto | subst; exact E].
Qed.

(** The best is [math.inf] or one of the losses. *)
Lemma best_of_mem l : best_of l = inf \/ In (best_of l) l.
Proof.
  induction l as [|y l IH] using rev_ind; [left; reflexivity|].
  unfold best_of in *. rewrite best_from_snoc.
  destruct (ltb y (best_from inf l)).
  - right. apply in_or_app. right. left. reflexivity.
  - destruct IH as [IH|IH]; [left; exact IH|].
    right. apply in_or_app. left. exact IH.
Qed.

(** It is at most every loss that is not NaN. *)
Lemma best_of_le l x :
  In x l -> is_nan x = false -> leb (best_of l) x = true.
Proof.
  intros Hx Hn. apply not_ltb_leb; auto using best_of_not_nan, best_of_lower.
Qed.

(** A loss is below the best of a list exactly when it is below
    [math.inf] and below every loss of the list that is not NaN. *)
Lemma ltb_best_of l y :
  ltb y (best_of l) = true <->
  ltb y inf = true /\ forall x, In x l -> is_nan x = false -> ltb y x = true.
Proof.
  split.
  - intros H. split.
    + apply ltb_leb_trans with (best_of l); auto.
      apply leb_inf, best_of_not_nan.
    + intros x Hx Hn. apply ltb_leb_trans with (best_of l); auto.
      apply best_of_le; auto.
  - intros [Hi Hall]. destruct (best_of_mem l) as [E|E].
    + rewrite E. exact Hi.
    + apply Hall; auto. apply best_of_not_nan.
Qed.

Lemma firstn_S_nth {A} (l : list A) : forall i x,
  nth_error l i = Some x -> firstn (S i) l = firstn i l ++ [x].
Proof.
  induction l as [|a l IH]; intros [|i] x H; try discriminate.
  - inversion H. reflexivity.
  - simpl in H. change (a :: firstn (S i) l = a :: (firstn i l ++ [x])).
    rewrite (IH i x H). reflexivity.
Qed.

Lemma range_nth n i e : nth_error (range n) i = Some e -> e = Z.of_nat i.
Proof.
  unfold range. intros H.
  destruct (nth_error (seq 0 (Z.to_nat n)) i) as [k|] eqn:E.
  - rewrite (map_nth_error _ _ _ E) in H. inversion H; subst.
    pose proof E as E'. apply nth_error_nth with (d := 0%nat) in E'.
    rewrite seq_nth in E'.
    + rewrite <- E'. reflexivity.
    + rewrite <- (length_seq (Z.to_nat n) 0). apply nth_error_Some. congruence.
  - apply nth_error_None in E.
    assert (nth_error (map Z.of_nat (seq 0 (Z.to_nat n))) i = None) as C
      by (apply nth_error_None; rewrite length_map; exact E).
    congruence.
Qed.

Lemma length_range n : List.length (range n) = Z.to_nat n.
Proof. unfold range. rewrite length_map, length_seq. reflexivity. Qed.

(** *** A run from a new trainer *)

Section Run.

Variables (train_it test_it : list batch) (m0 : net) (name : string).
Variables (num_epoches patience : Z).

Let hist : list epoch_run :=
  history (range num_epoches) patience (fresh train_it test_it m0 name).

Lemma losses_upto_S h i r :
  nth_error h i = Some r -> losses_upto h (S i) = losses_upto h i ++ [loss r].
Proof.
  intros H. unfold losses_upto. rewrite (firstn_S_nth _ _ _ H).
  rewrite map_app. reflexivity.
Qed.

Lemma length_losses_upto h i r :
  nth_error h i = Some r -> List.length (losses_upto h i) = i.
Proof.
  intros H. unfold losses_upto. rewrite length_map, length_firstn.
  assert (i < List.length h)%nat by (apply nth_error_Some; congruence). lia.
Qed.

Lemma tracked_step h i r :
  nth_error h i = Some r -> step_ok patience r -> ep r = Z.of_nat i ->
  tracked h i (self (before r)) -> tracked h (S i) (self (after r)).
Proof.
  intros Hi (_ & Hl & Ha & _) He (Hb & Hr & Hnth & Hinf & Hearly).
  unfold tracked. cbv zeta.
  rewrite (losses_upto_S _ _ _ Hi). pose proof (length_losses_upto _ _ _ Hi) as Hlen.
  set (L := losses_upto h i) in *.
  rewrite Ha, epoch_trainer_best_loss, epoch_trainer_best_epoch, <- Hl, He.
  replace (best_of (L ++ [loss r]))
    with (if ltb (loss r) (best_of L) then loss r else best_of L)
    by (symmetry; apply best_from_snoc).
  rewrite <- Hb.
  destruct (ltb (loss r) (best_loss (self (before r)))) eqn:E.
  - split; [reflexivity|]. split; [lia|]. split; [|split].
    + intros _. rewrite Nat2Z.id, nth_error_app2 by lia.
      rewrite Hlen, Nat.sub_diag. reflexivity.
    + intros C. exfalso.
      assert (ltb (loss r) inf = true) as C'.
      { apply ltb_leb_trans with (best_loss (self (before r))); auto.
        apply leb_inf. rewrite Hb. apply best_of_not_nan. }
      congruence.
    + intros j x Hj Hlt. rewrite nth_error_app1 in Hj by lia.
      destruct (eqb x (loss r)) eqn:Ex; [|reflexivity].
      pose proof (eqb_ltb_trans _ _ _ Ex E) as C.
      rewrite Hb in C. rewrite (best_of_lower L x) in C; [discriminate|].
      eapply nth_error_In; eauto.
  - split; [reflexivity|]. split; [lia|]. split; [|split].
    + intros Hlt. specialize (Hnth Hlt).
      rewrite nth_error_app1; [exact Hnth|].
      apply nth_error_Some. congruence.
    + exact Hinf.
    + intros j x Hj Hlt. apply (Hearly j x); [|exact Hlt].
      rewrite nth_error_app1 in Hj by lia. exact Hj.
Qed.

Lemma tracked_fresh h : tracked h 0 (self (fresh train_it test_it m0 name)).
Proof.
  unfold tracked, losses_upto. simpl. repeat split; try lia; discriminate.
Qed.

(** Every completed epoch of the run has its own index and finds and
    leaves the trainer tracking the best loss. *)
Lemma run_tracked : forall i r,
  nth_error hist i = Some r ->
  ep r = Z.of_nat i /\
  tracked hist i (self (before r)) /\ tracked hist (S i) (self (after r)).
Proof.
  induction i as [|i IH]; intros r Hi;
    destruct (history_chain _ _ _ _ _ Hi) as (Hs & He & Hl & _);
    apply range_nth in He.
  - assert (tracked hist 0 (self (before r))) as Ht
        by (rewrite Hl; apply tracked_fresh).
    split; [exact He|]. split; [exact Ht|].
    apply tracked_step; auto.
  - destruct Hl as (r' & Hr' & Hb & _).
    destruct (IH r' Hr') as (_ & _ & Ht'). rewrite <- Hb in Ht'.
    split; [exact He|]. split; [exact Ht'|].
    apply tracked_step; auto.
Qed.

Lemma run_iterators : forall i r,
  nth_error hist i = Some r ->
  train_iterator (self (before r)) = train_it /\
  test_iterator (self (before r)) = test_it /\
  model_name (self (before r)) = name.
Proof.
  induction i as [|i IH]; intros r Hi;
    destruct (history_chain _ _ _ _ _ Hi) as (_ & _ & Hl & _).
  - rewrite Hl. simpl. auto.
  - destruct Hl as (r' & Hr' & Hb & _).
    destruct (history_chain _ _ _ _ _ Hr') as ((_ & _ & Ha & _) & _).
    destruct (IH r' Hr') as (H1 & H2 & H3).
    rewrite Hb, Ha. unfold epoch_trainer.
    destruct (ltb _ _); simpl; auto.
Qed.

Lemma last_cons {A} (l : list A) : forall a d, last (a :: l) d = last l a.
Proof.
  induction l as [|b l IH]; intros a d; [reflexivity|].
  change (last (b :: l) d = last (b :: l) a). rewrite !IH. reflexivity.
Qed.

(** On a test iterator that is not empty [train] returns, in the world
    its last iteration left. *)
Lemma for_epochs_history epochs : forall p w,
  test_iterator (self w) <> [] ->
  for_epochs epochs p w = Ok (tt, final_world (history epochs p w) w).
Proof.
  induction epochs as [|e rest IH]; intros p w H; [reflexivity|].
  destruct (history_cons e rest p w H) as (r & Hh & Hb & _ & _ & Hs).
  rewrite Hh. unfold final_world. cbn [map]. rewrite last_cons.
  cbn [for_epochs]. unfold bind. rewrite Hb. cbn [snd].
  destruct (stopped r); [reflexivity|].
  apply IH. destruct Hs as (_ & _ & Ha & _).
  rewrite Ha, epoch_trainer_test_iterator.
  destruct (history_cons e rest p w H) as (r2 & Hh2 & _ & _ & Hw & _).
  rewrite Hh in Hh2. inversion Hh2; subst r2. rewrite Hw. exact H.
Qed.

(** The marks printed by a run are those of its iterations, in order. *)
Lemma history_marks epochs : forall p w,
  marks (stdout (final_world (history epochs p w) w)) =
  marks (stdout w)
  ++ flat_map (fun r => epoch_marks (ep r) (stopped r)) (history epochs p w).
Proof.
  induction epochs as [|e rest IH]; intros p w.
  - simpl. rewrite app_nil_r. reflexivity.
  - destruct (test_iterator (self w)) eqn:Et.
    { rewrite history_empty_test by exact Et. simpl.
      rewrite app_nil_r. reflexivity. }
    destruct (history_cons e rest p w) as (r & Hh & _ & _ & Hw & Hs);
      [congruence|].
    destruct Hs as (_ & _ & _ & _ & _ & out & Hout & Hm).
    rewrite Hh. unfold final_world. cbn [map flat_map]. rewrite last_cons.
    destruct (stopped r) eqn:St.
    + cbn [map last flat_map].
      rewrite app_nil_r, Hout, marks_app, Hm, Hw. reflexivity.
    + fold (final_world (history rest p (after r)) (after r)).
      rewrite IH, Hout, marks_app, Hm, Hw, <- app_assoc. reflexivity.
Qed.

Lemma step_files p r : step_ok p r -> files (after r) = files (before r) ++ written r.
Proof.
  intros (_ & Hl & Ha & Hf & _). unfold written.
  rewrite Hf, Ha, epoch_trainer_model, epoch_trainer_model_name, Hl.
  unfold epoch_files. destruct (ltb _ _); [reflexivity|].
  rewrite app_nil_r. reflexivity.
Qed.

(** The files written by a run are those of its iterations, in order. *)
Lemma history_files epochs : forall p w,
  files (final_world (history epochs p w) w) =
  files w ++ flat_map written (history epochs p w).
Proof.
  induction epochs as [|e rest IH]; intros p w.
  - simpl. rewrite app_nil_r. reflexivity.
  - destruct (test_iterator (self w)) eqn:Et.
    { rewrite history_empty_test by exact Et. simpl.
      rewrite app_nil_r. reflexivity. }
    destruct (history_cons e rest p w) as (r & Hh & _ & _ & Hw & Hs);
      [congruence|].
    pose proof (step_files _ _ Hs) as Hf.
    rewrite Hh. unfold final_world. cbn [map flat_map]. rewrite last_cons.
    destruct (stopped r) eqn:St.
    + cbn [map last flat_map]. rewrite app_nil_r, Hf, Hw. reflexivity.
    + fold (final_world (history rest p (after r)) (after r)).
      rewrite IH, Hf, Hw, <- app_assoc. reflexivity.
Qed.

Lemma final_world_last h : forall w,
  h <> [] ->
  exists r, nth_error h (List.length h - 1) = Some r /\
            final_world h w = after r.
Proof.
  intros w H. destruct (exists_last H) as (h' & r & ->).
  exists r. split.
  - rewrite length_app. simpl.
    replace (List.length h' + 1 - 1)%nat with (List.length h') by lia.
    rewrite nth_error_app2, Nat.sub_diag by lia. reflexivity.
  - unfold final_world. rewrite map_app. simpl. apply last_last.
Qed.

Lemma history_length epochs : forall p w,
  (List.length (history epochs p w) <= List.length epochs)%nat /\
  (test_iterator (self w) <> [] ->
   (forall r, In r (history epochs p w) -> stopped r = false) ->
   List.length (history epochs p w) = List.length epochs).
Proof.
  induction epochs as [|e rest IH]; intros p w; [simpl; auto|].
  destruct (test_iterator (self w)) eqn:Et.
  { rewrite history_empty_test by exact Et. simpl. split; [lia|congruence]. }
  assert (test_iterator (self w) <> []) as H by congruence.
  destruct (history_cons e rest p w H) as (r & Hh & _ & _ & Hw & Hs).
  rewrite Hh. destruct (stopped r) eqn:St.
  - simpl. split; [lia|]. intros _ Hall.
    specialize (Hall r (or_introl eq_refl)). congruence.
  - destruct (IH p (after r)) as [Hle Heq]. simpl. split; [lia|].
    intros _ Hall. f_equal. apply Heq.
    + destruct Hs as (_ & _ & Ha & _).
      rewrite Ha, epoch_trainer_test_iterator, Hw. exact H.
    + intros r' Hr'. apply Hall. right. exact Hr'.
Qed.

(** C1: a checkpoint is written in an epoch exactly when the epoch's
    test loss, the sum of the per-batch losses over the number of test
    batches, is strictly below the best test loss of the earlier epochs
    ([math.inf] when there is none), which is the trainer's [best_loss]
    at that point; otherwise the epoch writes nothing.  Being below the
    best of the earlier losses is being below [math.inf] and below each
    earlier loss that is a number.  The files [train] leaves are the
    checkpoints of its improving epochs, in order. *)
Theorem checkpoint_iff_improvement :
  let w0 := fresh train_it test_it m0 name in
  (test_it <> [] ->
   train num_epoches patience w0 = Ok (tt, final_world hist w0)) /\
  files (final_world hist w0) = flat_map written hist /\
  forall i r,
    nth_error hist i = Some r ->
    best_loss (self (before r)) = best_of (losses_upto hist i) /\
    loss r =
      div (accumulate (of_int 0)
             (batch_losses (model (self (after r))) test_it))
          (of_int (len test_it)) /\
    (checkpoint_written r <->
     ltb (loss r) (best_of (losses_upto hist i)) = true) /\
    (ltb (loss r) (best_of (losses_upto hist i)) = false ->
     files (after r) = files (before r)) /\
    (ltb (loss r) (best_of (losses_upto hist i)) = true <->
     ltb (loss r) inf = true /\
     forall x, In x (losses_upto hist i) -> is_nan x = false ->
               ltb (loss r) x = true).
Proof.
  intros w0. split; [|split].
  - intros Hte. unfold train. apply for_epochs_history. exact Hte.
  - unfold hist, w0. rewrite history_files. reflexivity.
  - intros i r Hi.
    destruct (history_chain _ _ _ _ _ Hi) as ((_ & Hl & Ha & Hf & _) & _).
    destruct (run_tracked i r Hi) as (_ & (Hb & _) & _).
    destruct (run_iterators i r Hi) as (_ & Hte & _).
    rewrite <- Hb. split; [reflexivity|]. split; [|split; [|split]].
    + rewrite Hl, Ha, epoch_trainer_model. unfold epoch_test_loss.
      rewrite Hte. reflexivity.
    + unfold checkpoint_written.
      rewrite Hf, Ha, epoch_trainer_model, epoch_trainer_model_name, Hl.
      unfold epoch_files.
      destruct (ltb (epoch_test_loss (self (before r)))
                    (best_loss (self (before r)))).
      * split; auto.
      * split; [|discriminate]. intros C.
        apply (f_equal (@List.length _)) in C.
        rewrite length_app in C. simpl in C. lia.
    + intros E. rewrite Hf. unfold epoch_files. rewrite <- Hl, E. reflexivity.
    + rewrite Hb. apply ltb_best_of.
Qed.

(** C10, as amended: [best_loss] never increases; after each epoch it
    is [math.inf] or one of the losses seen so far, no loss seen so far
    is below it and it is at most every loss seen that is not NaN;
    [best_epoch] is an index seen so far, no earlier epoch has a loss
    equal to [best_loss], and the epoch [best_epoch] itself has a loss
    equal to [best_loss] provided the loss of epoch 0 is not NaN.  When
    [train] returns, [best_loss] is the best of the losses of its
    epochs. *)
Theorem best_loss_tracks_minimum :
  best_loss (self (final_world hist (fresh train_it test_it m0 name))) =
    best_of (map loss hist) /\
  forall i r,
    nth_error hist i = Some r ->
    let t := self (after r) in
    let L := losses_upto hist (S i) in
    leb (best_loss t) (best_loss (self (before r))) = true /\
    (best_loss t = inf \/ In (best_loss t) L) /\
    (forall x, In x L -> ltb x (best_loss t) = false) /\
    (forall x, In x L -> is_nan x = false -> leb (best_loss t) x = true) /\
    0 <= best_epoch t <= Z.of_nat i /\
    (forall j x, nth_error L j = Some x -> Z.of_nat j < best_epoch t ->
                 eqb x (best_loss t) = false) /\
    ((forall r0, nth_error hist 0 = Some r0 -> is_nan (loss r0) = false) ->
     exists x, nth_error L (Z.to_nat (best_epoch t)) = Some x /\
               eqb x (best_loss t) = true).
Proof.
  split.
  { assert (hist = [] \/ hist <> []) as [E|E]
        by (destruct hist; [left; reflexivity | right; discriminate]).
    - rewrite E. reflexivity.
    - destruct (final_world_last hist (fresh train_it test_it m0 name) E)
        as (r & Hr & ->).
      destruct (run_tracked _ r Hr) as (_ & _ & (Hb & _)).
      rewrite Hb. unfold losses_upto.
      rewrite firstn_all2; [reflexivity|].
      assert (List.length hist <> 0)%nat
        by (destruct hist; [congruence | discriminate]).
      lia. }
  intros i r Hi t L.
  destruct (history_chain _ _ _ _ _ Hi) as ((_ & Hl & Ha & _) & _).
  destruct (run_tracked i r Hi)
    as (He & (Hb0 & _) & (Hb & Hr & Hnth & Hinf & Hearly)).
  fold t in Hb, Hr, Hnth, Hinf, Hearly. fold L in Hb, Hnth, Hearly.
  assert (is_nan (best_loss t) = false) as Hn
      by (rewrite Hb; apply best_of_not_nan).
  split; [|split; [|split; [|split; [|split; [|split]]]]].
  - unfold t. rewrite Ha, epoch_trainer_best_loss.
    destruct (ltb (epoch_test_loss (self (before r)))
                  (best_loss (self (before r)))) eqn:E;
      [apply ltb_leb; exact E|].
    apply leb_refl. rewrite Hb0. apply best_of_not_nan.
  - rewrite Hb. apply best_of_mem.
  - rewrite Hb. apply best_of_lower.
  - rewrite Hb. apply best_of_le.
  - lia.
  - exact Hearly.
  - intros H0. destruct (ltb (best_loss t) inf) eqn:E.
    + exists (best_loss t). split; [auto|]. apply eqb_refl; exact Hn.
    + rewrite (Hinf eq_refl). simpl.
      assert (best_loss t = inf) as Ebl.
      { destruct (best_loss t) as [[]|[]| |[] mm ee]; simpl in *;
          try discriminate; reflexivity. }
      destruct (nth_error hist 0) as [r0|] eqn:E0.
      * specialize (H0 r0 eq_refl).
        assert (nth_error L 0 = Some (loss r0)) as E1.
        { unfold L, losses_upto. destruct hist as [|a h']; [discriminate|].
          simpl in E0. inversion E0. reflexivity. }
        exists (loss r0). split; [exact E1|].
        assert (ltb (loss r0) (best_loss t) = false) as Elow.
        { rewrite Hb. apply best_of_lower. eapply nth_error_In; eauto. }
        rewrite Ebl in *.
        destruct (loss r0) as [[]|[]| |[] mm ee]; simpl in *;
          try discriminate; reflexivity.
      * apply nth_error_None in E0.
        assert (i < List.length hist)%nat by (apply nth_error_Some; congruence).
        lia.
Qed.

(** C2, as amended: on a test iterator that is not empty [train]
    returns; it prints the epoch line of each of its iterations and,
    after an iteration that left the loop, the exit line; the iterations
    handle the epochs 0, 1, 2, ... in turn; no epoch after epoch 0 runs
    with an index above [best_epoch + patience + 1], and neither does
    epoch 0 for a patience of at least -1; the loop is left right after
    the first epoch whose index exceeds [best_epoch + patience], and when
    there is none and the test iterator is not empty exactly
    [max(num_epoches, 0)] epochs run. *)
Theorem early_stopping_by_patience :
  let w0 := fresh train_it test_it m0 name in
  let w' := final_world hist w0 in
  (test_it <> [] -> train num_epoches patience w0 = Ok (tt, w')) /\
  marks (stdout w') =
    flat_map (fun r => epoch_marks (ep r) (stopped r)) hist /\
  (forall i r, nth_error hist i = Some r ->
     ep r = Z.of_nat i /\
     ((0 < i)%nat \/ -1 <= patience ->
      ep r <= best_epoch (self (before r)) + patience + 1) /\
     (-1 <= patience ->
      ep r <= best_epoch (self (after r)) + patience + 1) /\
     (stopped r = true <-> ep r > best_epoch (self (after r)) + patience) /\
     (stopped r = true -> List.length hist = S i) /\
     (forall j r', (j < i)%nat -> nth_error hist j = Some r' ->
        ep r' <= best_epoch (self (after r')) + patience)) /\
  (List.length hist <= Z.to_nat num_epoches)%nat /\
  (test_it <> [] ->
   (forall r, In r hist -> stopped r = false) ->
   List.length hist = Z.to_nat num_epoches).
Proof.
  intros w0 w'.
  assert (Hstop : forall i r, nth_error hist i = Some r ->
            (stopped r = true <->
             ep r > best_epoch (self (after r)) + patience) /\
            (stopped r = true -> List.length hist = S i)).
  { intros i r Hi.
    destruct (history_chain _ _ _ _ _ Hi) as (Hs & _ & _ & Hlast).
    destruct Hs as (_ & _ & _ & _ & Hst & _).
    split; [|exact Hlast]. rewrite Hst.
    destruct (Z.gtb_spec (ep r - best_epoch (self (after r))) patience);
      split; intros; try discriminate; try lia; auto. }
  split; [|split; [|split; [|split]]].
  - intros Hte. unfold train. apply for_epochs_history. exact Hte.
  - unfold w', w0, hist. rewrite history_marks. reflexivity.
  - intros i r Hi.
    destruct (history_chain _ _ _ _ _ Hi) as (Hs & _ & Hl & _).
    destruct Hs as (_ & _ & Ha & _).
    destruct (run_tracked i r Hi) as (He & (_ & Hr0 & _) & (_ & Hr & _)).
    destruct (Hstop i r Hi) as (Hiff & Hlast).
    assert ((0 < i)%nat \/ -1 <= patience ->
            ep r <= best_epoch (self (before r)) + patience + 1) as Hbefore.
    { intros Hor. destruct i as [|i].
      - destruct Hor as [Hor|Hor]; [lia|]. rewrite Hl, He. simpl. lia.
      - destruct Hl as (r' & Hr' & Hb & St').
        destruct (Hstop i r' Hr') as (Hiff' & _).
        destruct (run_tracked i r' Hr') as (He' & _).
        rewrite Hb, He.
        assert (~ ep r' > best_epoch (self (after r')) + patience) as Hn
            by (intros C; apply Hiff' in C; congruence).
        lia. }
    split; [exact He|]. split; [exact Hbefore|]. split; [|split; [|split]].
    + intros Hp. specialize (Hbefore (or_intror Hp)).
      rewrite Ha, epoch_trainer_best_epoch. destruct (ltb _ _); lia.
    + exact Hiff.
    + exact Hlast.
    + intros j r' Hj Hr'. destruct (Hstop j r' Hr') as (Hiff' & Hlast').
      assert (i < List.length hist)%nat
        by (apply nth_error_Some; congruence).
      destruct (stopped r') eqn:St; [specialize (Hlast' eq_refl); lia|].
      assert (~ ep r' > best_epoch (self (after r')) + patience) as Hn
          by (intros C; apply Hiff' in C; congruence).
      lia.
  - rewrite <- length_range. apply history_length.
  - intros Hte Hall. rewrite <- length_range. apply history_length; auto.
Qed.

(** *** Further properties of a run from a new trainer *)

(** The last file written holds the network of the epoch [best_epoch],
    whose loss is [best_loss]; no file is written while [best_loss] is
    [math.inf]. *)
Definition holds_best (h : list epoch_run) (w : world) : Prop :=
  (ltb (best_loss (self w)) inf = false -> files w = []) /\
  (ltb (best_loss (self w)) inf = true ->
   exists rb earlier,
     nth_error h (Z.to_nat (best_epoch (self w))) = Some rb /\
     loss rb = best_loss (self w) /\
     files w = earlier ++ [(name, get_state_dict (model (self (after rb))))]).

Lemma holds_best_step i r :
  nth_error hist i = Some r ->
  holds_best hist (before r) -> holds_best hist (after r).
Proof.
  intros Hi (Hnone & Hsome).
  destruct (history_chain _ _ _ _ _ Hi) as ((_ & Hl & Ha & Hf & _) & _).
  destruct (run_tracked i r Hi) as (He & (Hb & _) & _).
  destruct (run_iterators i r Hi) as (_ & _ & Hname).
  unfold holds_best.
  rewrite Ha, epoch_trainer_best_loss, epoch_trainer_best_epoch, Hf, <- Hl, He.
  unfold epoch_files. rewrite <- Hl.
  destruct (ltb (loss r) (best_loss (self (before r)))) eqn:E.
  - assert (ltb (loss r) inf = true) as Hinf.
    { apply ltb_leb_trans with (best_loss (self (before r))); auto.
      apply leb_inf. rewrite Hb. apply best_of_not_nan. }
    split; [congruence|]. intros _.
    exists r, (files (before r)). rewrite Nat2Z.id.
    split; [exact Hi|]. split; [reflexivity|].
    rewrite Hname, Ha, epoch_trainer_model. reflexivity.
  - split; assumption.
Qed.

Lemma run_holds_best : forall i r,
  nth_error hist i = Some r ->
  holds_best hist (before r) /\ holds_best hist (after r).
Proof.
  induction i as [|i IH]; intros r Hi;
    destruct (history_chain _ _ _ _ _ Hi) as (_ & _ & Hl & _).
  - assert (holds_best hist (before r)) as H0.
    { rewrite Hl. split; [reflexivity|]. simpl. discriminate. }
    split; [exact H0|]. eapply holds_best_step; eauto.
  - destruct Hl as (r' & Hr' & Hb & _).
    destruct (IH r' Hr') as (_ & H'). rewrite <- Hb in H'.
    split; [exact H'|]. eapply holds_best_step; eauto.
Qed.

Lemma run_file_names : forall i r,
  nth_error hist i = Some r ->
  Forall (fun f => fst f = name) (files (before r)) /\
  Forall (fun f => fst f = name) (files (after r)).
Proof.
  assert (Hstep : forall i r, nth_error hist i = Some r ->
            Forall (fun f => fst f = name) (files (before r)) ->
            Forall (fun f => fst f = name) (files (after r))).
  { intros i r Hi H.
    destruct (history_chain _ _ _ _ _ Hi) as (Hs & _).
    destruct (run_iterators i r Hi) as (_ & _ & Hname).
    rewrite (step_files _ _ Hs). apply Forall_app. split; [exact H|].
    unfold written. destruct (ltb _ _); [|constructor].
    constructor; [|constructor]. cbn [fst].
    destruct Hs as (_ & _ & Ha & _).
    rewrite Ha, epoch_trainer_model_name. exact Hname. }
  induction i as [|i IH]; intros r Hi;
    destruct (history_chain _ _ _ _ _ Hi) as (_ & _ & Hl & _).
  - assert (Forall (fun f => fst f = name) (files (before r))) as H0
        by (rewrite Hl; constructor).
    split; [exact H0|]. eapply Hstep; eauto.
  - destruct Hl as (r' & Hr' & Hb & _).
    destruct (IH r' Hr') as (_ & H'). rewrite <- Hb in H'.
    split; [exact H'|]. eapply Hstep; eauto.
Qed.

(** After every epoch of a run from a new trainer, every file written
    so far has the name [model_name]; there is none while [best_loss] is
    [math.inf]; otherwise the last one holds the [state_dict] of the
    network as the epoch [best_epoch] left it, and the test loss of that
    epoch is [best_loss]. *)
Theorem checkpoint_holds_best_model i r :
  nth_error hist i = Some r ->
  Forall (fun f => fst f = name) (files (after r)) /\
  (ltb (best_loss (self (after r))) inf = false -> files (after r) = []) /\
  (ltb (best_loss (self (after r))) inf = true ->
   exists rb earlier,
     nth_error hist (Z.to_nat (best_epoch (self (after r)))) = Some rb /\
     loss rb = best_loss (self (after r)) /\
     files (after r) =
       earlier ++ [(name, get_state_dict (model (self (after rb))))]).
Proof.
  intros Hi. destruct (run_holds_best i r Hi) as (_ & Hnone & Hsome).
  destruct (run_file_names i r Hi) as (_ & Hnames).
  split; [exact Hnames|]. split; assumption.
Qed.

Lemma epoch_within_patience i r :
  nth_error hist i = Some r -> -1 <= patience ->
  ep r <= best_epoch (self (after r)) + patience + 1.
Proof.
  intros Hi Hp.
  destruct (history_chain _ _ _ _ _ Hi) as (Hs & _ & Hl & _).
  destruct Hs as (_ & _ & Ha & _).
  destruct (run_tracked i r Hi) as (He & (_ & Hr0 & _) & _).
  assert (ep r <= best_epoch (self (before r)) + patience + 1) as Hbefore.
  { destruct i as [|i].
    - rewrite Hl, He. simpl. lia.
    - destruct Hl as (r' & Hr' & Hb & St').
      destruct (history_chain _ _ _ _ _ Hr') as (Hs' & _).
      destruct Hs' as (_ & _ & _ & _ & Hst' & _).
      destruct (run_tracked i r' Hr') as (He' & _).
      rewrite St' in Hst'. symmetry in Hst'. rewrite Hb, He.
      destruct (Z.gtb_spec (ep r' - best_epoch (self (after r'))) patience);
        [discriminate|]. lia. }
  rewrite Ha, epoch_trainer_best_epoch. destruct (ltb _ _); lia.
Qed.

(** With a patience of at least -1, the epoch after which the loop is
    left by patience is exactly [best_epoch + patience + 1], and no run
    has more than [best_epoch + patience + 2] epochs, for the final
    [best_epoch]. *)
Theorem patience_exit_epoch :
  -1 <= patience ->
  (forall i r, nth_error hist i = Some r -> stopped r = true ->
     ep r = best_epoch (self (after r)) + patience + 1) /\
  Z.of_nat (List.length hist) <=
    best_epoch (self (final_world hist (fresh train_it test_it m0 name)))
    + patience + 2.
Proof.
  intros Hp. split.
  - intros i r Hi St.
    pose proof (epoch_within_patience i r Hi Hp) as Hle.
    destruct (history_chain _ _ _ _ _ Hi) as (Hs & _).
    destruct Hs as (_ & _ & _ & _ & Hst & _). rewrite St in Hst.
    symmetry in Hst.
    destruct (Z.gtb_spec (ep r - best_epoch (self (after r))) patience);
      [lia | discriminate].
  - assert (hist = [] \/ hist <> []) as [E|E]
        by (destruct hist; [left; reflexivity | right; discriminate]).
    + rewrite E. simpl. lia.
    + destruct (final_world_last hist (fresh train_it test_it m0 name) E)
        as (r & Hr & ->).
      pose proof (epoch_within_patience _ r Hr Hp) as Hle.
      destruct (run_tracked _ r Hr) as (He & _).
      assert (List.length hist <> 0)%nat
        by (destruct hist; [congruence | discriminate]).
      lia.
Qed.

End Run.

(** *** Further properties of the trainer *)

(** The losses [train_epoch] measures: each batch is evaluated by the
    network the steps on the earlier batches have produced. *)
Fixpoint training_losses (m : net) (bs : list batch) : list float :=
  match bs with
  | [] => []
  | (x, y) :: rest =>
      criterion (forward m x) y :: training_losses (optimizer_step m x y) rest
  end.

(** The progress lines of a pass over [n] batches, from batch
    [batch_idx] on: each shows the mean of the losses so far. *)
Fixpoint running_lines (n batch_idx : Z) (total : float) (losses : list float)
  : list line :=
  match losses with
  | [] => []
  | l :: rest =>
      BatchLine (batch_idx + 1) n
                (div (add total l) (of_int (batch_idx + 1)))
      :: running_lines n (batch_idx + 1) (add total l) rest
  end.

Lemma add_nan_r x : add x nan = nan.
Proof. destruct x as [[]|[]| |[] m e]; reflexivity. Qed.

Lemma accumulate_nan xs : forall acc,
  (is_nan acc = true \/ exists x, In x xs /\ is_nan x = true) ->
  is_nan (accumulate acc xs) = true.
Proof.
  induction xs as [|y xs IH]; intros acc H.
  - destruct H as [H|(x & [] & _)]. exact H.
  - simpl. apply IH. destruct H as [H|(x & [Hx|Hx] & Hn)].
    + left. destruct acc; try discriminate. reflexivity.
    + left. subst y. destruct x; try discriminate. rewrite add_nan_r.
      reflexivity.
    + right. exists x. auto.
Qed.

Lemma div_nan_l y : div nan y = nan.
Proof. reflexivity. Qed.



Lemma running_lines_length n losses : forall idx total,
  List.length (running_lines n idx total losses) = List.length losses.
Proof.
  induction losses as [|l rest IH]; intros idx total; [reflexivity|].
  simpl. rewrite IH. reflexivity.
Qed.

(** The last progress line shows the mean of all the losses. *)
Lemma running_lines_last n losses : forall idx total,
  losses <> [] ->
  exists pre,
    running_lines n idx total losses =
    pre ++ [BatchLine (idx + len losses) n
              (div (accumulate total losses) (of_int (idx + len losses)))].
Proof.
  induction losses as [|l rest IH]; intros idx total H; [congruence|].
  destruct rest as [|l' rest].
  - exists []. reflexivity.
  - destruct (IH (idx + 1) (add total l)) as (pre & Hpre); [discriminate|].
    exists (BatchLine (idx + 1) n (div (add total l) (of_int (idx + 1))) :: pre).
    cbn [running_lines] in *. rewrite Hpre. cbn [app].
    replace (idx + 1 + len (l' :: rest)) with (idx + len (l :: l' :: rest))
      by (unfold len; cbn [List.length]; lia).
    reflexivity.
Qed.

Lemma train_batches_lines bs : forall n idx total w, 0 <= idx ->
  train_batches n idx bs total w =
  Ok (tt, mkWorld (set_model (fit (model (self w)) bs) (self w))
                  (stdout w
                   ++ running_lines n idx total
                        (training_losses (model (self w)) bs))
                  (files w)).
Proof.
  induction bs as [|[x y] bs IH]; intros n idx total w Hidx.
  - destruct w as [[m a b c d e] o f]. simpl. rewrite app_nil_r. reflexivity.
  - simpl train_batches. unfold bind at 1. unfold get at 1.
    unfold bind at 1. unfold update at 1.
    rewrite truediv_pos by lia.
    unfold bind at 1. unfold ret at 1.
    unfold bind at 1. unfold print at 1. cbn [self stdout files].
    rewrite IH by lia.
    cbn [self stdout files model set_model train_iterator test_iterator
         best_loss model_name best_epoch fit fold_left fst snd
         training_losses running_lines].
    rewrite <- app_assoc. reflexivity.
Qed.

Lemma test_batches_lines bs : forall n idx total w, 0 <= idx ->
  test_batches n idx bs total w =
  Ok (accumulate total (batch_losses (model (self w)) bs),
      mkWorld (self w)
              (stdout w
               ++ running_lines n idx total (batch_losses (model (self w)) bs))
              (files w)).
Proof.
  induction bs as [|[x y] bs IH]; intros n idx total w Hidx.
  - destruct w as [t o f]. simpl. rewrite app_nil_r. reflexivity.
  - simpl test_batches. unfold bind at 1. unfold get at 1.
    rewrite truediv_pos by lia.
    unfold bind at 1. unfold ret at 1.
    unfold bind at 1. unfold print at 1. cbn [self stdout files].
    rewrite IH by lia.
    cbn [self stdout files batch_losses map running_lines accumulate
         fold_left fst snd].
    rewrite <- app_assoc. reflexivity.
Qed.

(** What [train_epoch] does when the calls of the framework return, on
    any train iterator, the empty one included: it changes nothing of
    the trainer but the network, which is put in training mode and
    stepped once per batch, in order; it writes no file; it prints one
    progress line per batch, with the mean of the losses measured so
    far, each before the step on its batch, and a newline. *)
Theorem train_epoch_effects w :
  train_epoch w =
  Ok (tt,
      mkWorld
        (set_model (fit (set_train (model (self w))) (train_iterator (self w)))
                   (self w))
        (stdout w
         ++ running_lines (len (train_iterator (self w))) 0 (of_int 0)
              (training_losses (set_train (model (self w)))
                               (train_iterator (self w)))
         ++ [Newline])
        (files w)).
Proof.
  unfold train_epoch. unfold bind at 1. unfold get at 1.
  unfold bind at 1. unfold update at 1.
  unfold bind at 1. unfold get at 1. cbn [self stdout files].
  unfold bind at 1. rewrite train_batches_lines by lia.
  unfold print.
  cbn [self stdout files model set_model train_iterator test_iterator
       best_loss model_name best_epoch].
  rewrite <- app_assoc. reflexivity.
Qed.

(** On a test iterator that is not empty [test_epoch] takes no
    optimizer step: it only puts the network in evaluation mode, and
    writes no file.  The loss it returns is the mean that its last
    progress line shows. *)
Theorem test_epoch_effects w :
  test_iterator (self w) <> [] ->
  let m := set_eval (model (self w)) in
  let it := test_iterator (self w) in
  let l := div (accumulate (of_int 0) (batch_losses m it)) (of_int (len it)) in
  exists pre,
    test_epoch w =
    Ok (l, mkWorld (set_model m (self w))
                   (stdout w ++ pre ++ [BatchLine (len it) (len it) l; Newline])
                   (files w)) /\
    List.length pre = (List.length it - 1)%nat.
Proof.
  intros H m it l.
  destruct (running_lines_last (len it) (batch_losses m it) 0 (of_int 0))
    as (pre & Hpre).
  { unfold batch_losses, it. destruct (test_iterator (self w));
      [congruence | discriminate]. }
  exists pre. split.
  - unfold test_epoch. unfold bind at 1. unfold get at 1.
    unfold bind at 1. unfold update at 1.
    unfold bind at 1. unfold get at 1. cbn [self stdout files].
    unfold bind at 1. rewrite test_batches_lines by lia.
    cbn [self stdout files model set_model train_iterator test_iterator
         best_loss model_name best_epoch].
    unfold bind at 1. unfold print at 1. cbn [self stdout files].
    rewrite truediv_pos.
    + unfold bind, ret. fold m. fold it. rewrite Hpre.
      assert (len (batch_losses m it) = len it) as El
          by (unfold len, batch_losses; rewrite length_map; reflexivity).
      rewrite El, Z.add_0_l.
      fold l. rewrite <- !app_assoc. reflexivity.
    + unfold len. destruct (test_iterator (self w)); [congruence | simpl; lia].
  - pose proof (running_lines_length (len it) (batch_losses m it) 0 (of_int 0))
      as Hlen.
    rewrite Hpre, length_app in Hlen.
    assert (List.length (batch_losses m it) = List.length it) as El
        by (unfold batch_losses; apply length_map).
    rewrite El in Hlen. cbn [List.length] in Hlen. lia.
Qed.


(** An epoch in which the loss of some test batch is NaN has a NaN test
    loss; it leaves [best_loss] and [best_epoch] as they are and writes
    no checkpoint. *)
Theorem nan_batch_blocks_checkpoint epochs patience w i r :
  nth_error (history epochs patience w) i = Some r ->
  (exists b, In b (test_iterator (self (before r))) /\
             is_nan (criterion (forward (model (self (after r))) (fst b))
                               (snd b)) = true) ->
  is_nan (loss r) = true /\
  best_loss (self (after r)) = best_loss (self (before r)) /\
  best_epoch (self (after r)) = best_epoch (self (before r)) /\
  files (after r) = files (before r).
Proof.
  intros Hi (b & Hb & Hn).
  destruct (history_chain _ _ _ _ _ Hi) as ((_ & Hl & Ha & Hf & _) & _).
  rewrite Ha, epoch_trainer_model in Hn.
  assert (is_nan (loss r) = true) as Hnan.
  { rewrite Hl. unfold epoch_test_loss.
    assert (is_nan (accumulate (of_int 0)
              (batch_losses (epoch_model (self (before r)))
                            (test_iterator (self (before r))))) = true) as Ha'.
    { apply accumulate_nan. right. eexists. split; [|exact Hn].
      unfold batch_losses. apply in_map_iff. exists b. auto. }
    destruct (accumulate _ _); try discriminate. reflexivity. }
  assert (ltb (epoch_test_loss (self (before r)))
              (best_loss (self (before r))) = false) as E.
  { rewrite <- Hl. destruct (loss r); try discriminate. reflexivity. }
  split; [exact Hnan|].
  rewrite Ha, epoch_trainer_best_loss, epoch_trainer_best_epoch, Hf.
  unfold epoch_files. rewrite E. auto.
Qed.



(** With a negative [patience], on a trainer whose [best_epoch] is
    below [- patience] (every new trainer, whose [best_epoch] is 0, and
    any trainer when [patience] is low enough), a run of at least one
    epoch on a test iterator that is not empty has exactly one epoch:
    the first epoch runs and the loop is left right after it. *)
Theorem negative_patience_single_epoch num_epoches patience w :
  patience < 0 -> best_epoch (self w) < - patience ->
  1 <= num_epoches -> test_iterator (self w) <> [] ->
  exists r,
    history (range num_epoches) patience w = [r] /\
    before r = w /\ ep r = 0 /\ stopped r = true /\
    marks (stdout (after r)) = marks (stdout w) ++ [EpochLine 1; ExitLine].
Proof.
  intros Hp Hb Hn Hte. unfold range.
  destruct (Z.to_nat num_epoches) as [|k] eqn:E; [lia|].
  cbn [seq map].
  destruct (history_cons (Z.of_nat 0) (map Z.of_nat (seq 1 k)) patience
              w Hte)
    as (r & Hh & _ & He & Hw & Hs).
  destruct Hs as (_ & _ & Ha & _ & Hst & out & Hout & Hm).
  assert (best_epoch (self (after r)) = 0 \/
          best_epoch (self (after r)) = best_epoch (self w)) as Hbe.
  { rewrite Ha, epoch_trainer_best_epoch, He, Hw.
    destruct (ltb _ _); [left | right]; reflexivity. }
  assert (stopped r = true) as St.
  { rewrite Hst, He. apply Z.gtb_lt. simpl. destruct Hbe as [-> | ->]; lia. }
  exists r. rewrite Hh, St. split; [reflexivity|]. split; [exact Hw|].
  split; [exact He|]. split; [reflexivity|].
  rewrite Hout, marks_app, Hm, Hw, He, St. reflexivity.
Qed.

End MotionTrainer.

Arguments mkMotionTrainer {features labels net}.
Arguments model {features labels net}.
Arguments train_iterator {features labels net}.
Arguments test_iterator {features labels net}.
Arguments best_loss {features labels net}.
Arguments model_name {features labels net}.
Arguments best_epoch {features labels net}.
Arguments mkWorld {features labels net state_dict}.
Arguments self {features labels net state_dict}.
Arguments stdout {features labels net state_dict}.
Arguments files {features labels net state_dict}.
Arguments ep {features labels net state_dict}.
Arguments before {features labels net state_dict}.
Arguments loss {features labels net state_dict}.
Arguments after {features labels net state_dict}.
Arguments stopped {features labels net state_dict}.
Arguments fresh {features labels net state_dict}.
Arguments history {features labels prediction net state_dict}.
Arguments train {features labels prediction net state_dict}.
Arguments losses_upto {features labels net state_dict}.
Arguments checkpoint_written {features labels net state_dict}.
Arguments final_world {features labels net state_dict}.

(** *** A small instance

    A network that is one integer, moved up by one at each optimizer
    step, with the loss [(m - 2)^2] on every batch: the test loss is 1
    after the first epoch, 0 after the second and 1 again after the
    third. *)
Module Toy.

Definition forward (m : Z) (_ : unit) : Z := m.
Definition criterion (p : Z) (_ : unit) : float := of_int ((p - 2) * (p - 2)).
Definition optimizer_step (m : Z) (_ _ : unit) : Z := m + 1.
Definition one_batch : list (unit * unit) := [(tt, tt)].

Definition start : world unit unit Z Z := fresh one_batch one_batch 0 "best.pt".

Definition run (num_epoches patience : Z) : list (epoch_run unit unit Z Z) :=
  history (fun m => m) (fun m => m) forward criterion optimizer_step
          (fun m => m) (range num_epoches) patience start.

(** The same with a criterion that returns NaN on every batch. *)
Definition nan_criterion (_ : Z) (_ : unit) : float := nan.

Definition nan_run (num_epoches patience : Z) : list (epoch_run unit unit Z Z) :=
  history (fun m => m) (fun m => m) forward nan_criterion optimizer_step
          (fun m => m) (range num_epoches) patience start.

End Toy.

Example toy_run_losses :
  map loss (Toy.run 5 0) = [of_int 1; of_int 0; of_int 1] /\
  map stopped (Toy.run 5 0) = [false; false; true] /\
  map (fun r => List.length (files (after r))) (Toy.run 5 0) = [1; 2; 2]%nat /\
  map (fun r => best_epoch (self (after r))) (Toy.run 5 0) = [0; 1; 1].
Proof. vm_compute. repeat split. Qed.

(** The second epoch of the small instance improves on the first and
    writes a checkpoint; the run leaves two checkpoints. *)
Lemma checkpoint_iff_improvement_witness :
  List.length (files (final_world (Toy.run 5 0) Toy.start)) = 2%nat /\
  exists r,
    nth_error (Toy.run 5 0) 1 = Some r /\
    (checkpoint_written (fun m => m) r <->
     ltb (loss r) (best_of (losses_upto (Toy.run 5 0) 1)) = true) /\
    ltb (loss r) (best_of (losses_upto (Toy.run 5 0) 1)) = true.
Proof.
  pose proof (checkpoint_iff_improvement unit unit Z Z Z (fun m => m)
                (fun m => m) Toy.forward Toy.criterion Toy.optimizer_step
                (fun m => m) Toy.one_batch Toy.one_batch 0 "best.pt" 5 0) as H.
  cbv zeta in H. destruct H as (_ & Hfiles & Hall).
  split.
  - unfold Toy.run, Toy.start. rewrite Hfiles. vm_compute. reflexivity.
  - eexists. split; [vm_compute; reflexivity|]. split.
    + apply (Hall 1%nat). vm_compute. reflexivity.
    + vm_compute. reflexivity.
Defined.

(** C2, as stated, fails for a patience below -1: the first epoch runs
    whatever the patience. *)
Lemma early_stopping_negative_patience :
  ~ (forall i r, nth_error (Toy.run 1 (-2)) i = Some r ->
                 ep r <= best_epoch (self (before r)) + (-2) + 1) /\
  ~ (forall i r, nth_error (Toy.run 1 (-2)) i = Some r ->
                 ep r <= best_epoch (self (after r)) + (-2) + 1).
Proof.
  split; intros C.
  - destruct (nth_error (Toy.run 1 (-2)) 0) as [r|] eqn:E; [|discriminate E].
    specialize (C 0%nat r E). vm_compute in E. inversion E; subst r.
    vm_compute in C. apply C. reflexivity.
  - destruct (nth_error (Toy.run 1 (-2)) 0) as [r|] eqn:E; [|discriminate E].
    specialize (C 0%nat r E). vm_compute in E. inversion E; subst r.
    vm_compute in C. apply C. reflexivity.
Qed.

Lemma early_stopping_by_patience_witness :
  train (fun m => m) (fun m => m) Toy.forward Toy.criterion Toy.optimizer_step
        (fun m => m) 5 0 Toy.start =
    Ok (tt, final_world (Toy.run 5 0) Toy.start) /\
  marks (stdout (final_world (Toy.run 5 0) Toy.start)) =
    [EpochLine 1; EpochLine 2; EpochLine 3; ExitLine] /\
  List.length (Toy.run 5 0) = 3%nat /\
  List.length (Toy.run 2 0) = Z.to_nat 2.
Proof.
  assert (Toy.one_batch <> []) as H1 by discriminate.
  pose proof (early_stopping_by_patience unit unit Z Z Z (fun m => m)
                (fun m => m) Toy.forward Toy.criterion Toy.optimizer_step
                (fun m => m) Toy.one_batch Toy.one_batch 0 "best.pt" 5 0)
    as H.
  cbv zeta in H. destruct H as (Ht & Hm & _).
  split; [exact (Ht H1)|]. split; [|split].
  - unfold Toy.run, Toy.start. rewrite Hm. vm_compute. reflexivity.
  - vm_compute. reflexivity.
  - pose proof (early_stopping_by_patience unit unit Z Z Z (fun m => m)
                  (fun m => m) Toy.forward Toy.criterion Toy.optimizer_step
                  (fun m => m) Toy.one_batch Toy.one_batch 0 "best.pt" 2 0)
      as H'.
    cbv zeta in H'. destruct H' as (_ & _ & _ & _ & Hlen).
    apply (Hlen H1). intros r Hr. vm_compute in Hr.
    destruct Hr as [<-|[<-|[]]]; reflexivity.
Defined.

(** C10, as stated, fails when the first test loss is NaN: nothing
    compares below [math.inf], [best_epoch] stays 0 and the loss of
    epoch 0 is not [best_loss]. *)
Lemma best_epoch_nan_counterexample :
  map loss (Toy.nan_run 1 0) = [nan] /\
  map (fun r => best_loss (self (after r))) (Toy.nan_run 1 0) = [inf] /\
  map (fun r => best_epoch (self (after r))) (Toy.nan_run 1 0) = [0] /\
  ~ (forall i r, nth_error (Toy.nan_run 1 0) i = Some r ->
       exists x,
         nth_error (losses_upto (Toy.nan_run 1 0) (S i))
                   (Z.to_nat (best_epoch (self (after r)))) = Some x /\
         eqb x (best_loss (self (after r))) = true).
Proof.
  split; [vm_compute; reflexivity|]. split; [vm_compute; reflexivity|].
  split; [vm_compute; reflexivity|]. intros C.
  destruct (nth_error (Toy.nan_run 1 0) 0) as [r|] eqn:E; [|discriminate E].
  destruct (C 0%nat r E) as (x & Hx & Heq).
  vm_compute in E. inversion E; subst r. vm_compute in Hx.
  inversion Hx; subst x. vm_compute in Heq. discriminate.
Qed.

Lemma best_loss_tracks_minimum_witness :
  best_loss (self (final_world (Toy.run 5 0) Toy.start)) = of_int 0 /\
  exists r,
    nth_error (Toy.run 5 0) 2 = Some r /\
    leb (best_loss (self (after r))) (best_loss (self (before r))) = true /\
    exists x,
      nth_error (losses_upto (Toy.run 5 0) 3)
                (Z.to_nat (best_epoch (self (after r)))) = Some x /\
      eqb x (best_loss (self (after r))) = true.
Proof.
  pose proof (best_loss_tracks_minimum unit unit Z Z Z (fun m => m)
                (fun m => m) Toy.forward Toy.criterion Toy.optimizer_step
                (fun m => m) Toy.one_batch Toy.one_batch 0 "best.pt" 5 0)
    as (Hfinal & Hall).
  split.
  - unfold Toy.run, Toy.start. rewrite Hfinal. vm_compute. reflexivity.
  - eexists. split; [vm_compute; reflexivity|].
    match goal with |- context [best_loss (self (after ?r0))] =>
      assert (nth_error (Toy.run 5 0) 2 = Some r0) as Hi
        by (vm_compute; reflexivity);
      pose proof (Hall 2%nat r0 Hi) as H
    end.
    cbv zeta in H. destruct H as (Hle & _ & _ & _ & _ & _ & Hat).
    split; [exact Hle|]. apply Hat.
    intros r0 H0. vm_compute in H0. inversion H0. vm_compute. reflexivity.
Defined.

(** *** Instances of the further properties *)

Lemma test_epoch_effects_witness :
  exists pre l w',
    test_epoch unit unit Z Z Z (fun m => m) Toy.forward Toy.criterion Toy.start
    = Ok (l, w') /\
    stdout w' = pre ++ [BatchLine 1 1 l; Newline] /\
    l = of_int 4.
Proof.
  assert (test_iterator (self Toy.start) <> []) as H by discriminate.
  destruct (test_epoch_effects unit unit Z Z Z (fun m => m) Toy.forward
              Toy.criterion Toy.start H) as (pre & Heq & Hlen).
  cbv zeta in Heq. exists pre. eexists. eexists.
  split; [exact Heq|]. split; [reflexivity|]. vm_compute. reflexivity.
Defined.

Lemma nan_batch_blocks_checkpoint_witness :
  exists r,
    nth_error (Toy.nan_run 1 0) 0 = Some r /\
    is_nan (loss r) = true /\
    best_loss (self (after r)) = best_loss (self (before r)) /\
    files (after r) = files (before r).
Proof.
  eexists. split; [vm_compute; reflexivity|].
  match goal with |- context [loss ?r0] =>
    assert (nth_error (Toy.nan_run 1 0) 0 = Some r0) as Hi
      by (vm_compute; reflexivity);
    destruct (nan_batch_blocks_checkpoint unit unit Z Z Z (fun m => m)
                (fun m => m) Toy.forward Toy.nan_criterion Toy.optimizer_step
                (fun m => m) (range 1) 0 Toy.start 0%nat r0 Hi)
      as (H1 & H2 & _ & H4)
  end.
  - exists (tt, tt). split; [left; reflexivity | reflexivity].
  - split; [exact H1|]. split; [exact H2 | exact H4].
Defined.


Lemma checkpoint_holds_best_model_witness :
  exists r rb earlier,
    nth_error (Toy.run 5 0) 2 = Some r /\
    nth_error (Toy.run 5 0) 1 = Some rb /\
    loss rb = best_loss (self (after r)) /\
    files (after r) = earlier ++ [("best.pt"%string, model (self (after rb)))].
Proof.
  destruct (nth_error (Toy.run 5 0) 2) as [r|] eqn:Hi;
    [|vm_compute in Hi; discriminate].
  destruct (checkpoint_holds_best_model unit unit Z Z Z (fun m => m)
              (fun m => m) Toy.forward Toy.criterion Toy.optimizer_step
              (fun m => m) Toy.one_batch Toy.one_batch 0 "best.pt" 5 0
              2%nat r Hi) as (_ & _ & Hsome).
  assert (ltb (best_loss (self (after r))) inf = true /\
          Z.to_nat (best_epoch (self (after r))) = 1%nat) as (Hlt & Hbe)
      by (vm_compute in Hi; inversion Hi; split; reflexivity).
  destruct (Hsome Hlt) as (rb & earlier & Hrb & Hl & Hf).
  rewrite Hbe in Hrb.
  exists r, rb, earlier.
  split; [reflexivity|]. split; [exact Hrb|]. split; [exact Hl | exact Hf].
Defined.

Lemma patience_exit_epoch_witness :
  exists r,
    nth_error (Toy.run 5 0) 2 = Some r /\
    ep r = best_epoch (self (after r)) + 0 + 1 /\
    Z.of_nat (List.length (Toy.run 5 0)) <=
      best_epoch (self (final_world (Toy.run 5 0) Toy.start)) + 0 + 2.
Proof.
  assert (-1 <= 0) as Hp by lia.
  destruct (patience_exit_epoch unit unit Z Z Z (fun m => m) (fun m => m)
              Toy.forward Toy.criterion Toy.optimizer_step (fun m => m)
              Toy.one_batch Toy.one_batch 0 "best.pt" 5 0 Hp) as (Hex & Hlen).
  destruct (nth_error (Toy.run 5 0) 2) as [r|] eqn:Hi;
    [|vm_compute in Hi; discriminate].
  exists r. split; [reflexivity|]. split; [|exact Hlen].
  apply (Hex 2%nat r Hi). vm_compute in Hi. inversion Hi. reflexivity.
Defined.

(** A second call on the trainer the first call left, whose
    [best_epoch] is 1: with patience -2 one epoch runs, with patience -1
    two. *)
Lemma negative_patience_single_epoch_witness :
  let w1 := final_world (Toy.run 5 0) Toy.start in
  best_epoch (self w1) = 1 /\
  exists r,
    history (fun m => m) (fun m => m) Toy.forward Toy.criterion
            Toy.optimizer_step (fun m => m) (range 4) (-2) w1 = [r] /\
    ep r = 0 /\ stopped r = true.
Proof.
  intros w1. split; [vm_compute; reflexivity|].
  assert (-2 < 0) as H1 by lia.
  assert (best_epoch (self w1) < - -2) as H2 by (vm_compute; reflexivity).
  assert (1 <= 4) as H3 by lia.
  assert (test_iterator (self w1) <> []) as H4 by (vm_compute; discriminate).
  destruct (negative_patience_single_epoch unit unit Z Z Z (fun m => m)
              (fun m => m) Toy.forward Toy.criterion Toy.optimizer_step
              (fun m => m) 4 (-2) w1 H1 H2 H3 H4)
    as (r & Hh & _ & He & Hs & _).
  exists r. split; [exact Hh|]. split; [exact He | exact Hs].
Defined.

Example stale_best_epoch_two_epochs :
  map ep (history (fun m => m) (fun m => m) Toy.forward Toy.criterion
                  Toy.optimizer_step (fun m => m) (range 4) (-1)
                  (final_world (Toy.run 5 0) Toy.start)) = [0; 1].
Proof. vm_compute. reflexivity. Qed.

End Trainer.

(** ** [tools/datasets.py] *)

Module Datasets.

Import PyFloat.

Notation "x <- c ;; k" := (rbind c (fun x => k))
  (at level 61, c at next level, right associativity).

(** A [torch.float] element: binary32. *)
Definition float32 : Type := spec_float.

(** The conversion of a binary64 value to [torch.float], which the copy
    into a [torch.float] tensor applies to every element. *)
Definition to_float32 (x : float) : float32 :=
  match x with
  | S754_finite s m e => binary_round 24 128 s m e
  | _ => x
  end.

Definition len {A} (l : list A) : Z := Z.of_nat (List.length l).

(** [l[i]] for a Python integer [i]: negative indices count from the
    end. *)
Definition getitem {A} (l : list A) (i : Z) : result A :=
  let j := if i <? 0 then i + len l else i in
  if (0 <=? j) && (j <? len l) then
    match nth_error l (Z.to_nat j) with
    | Some a => Ok a
    | None => Raise IndexError
    end
  else Raise IndexError.

(** A one-dimensional array or tensor is the list of its elements. *)
Definition vec : Type := list float.

(** [sigma] is a number or a one-dimensional array. *)
Inductive npval : Type :=
| Scalar (x : float)
| Array (xs : vec).

Definition np_multiply (a : npval) (v : float) : npval :=
  match a with
  | Scalar x => Scalar (mul x v)
  | Array xs => Array (map (fun x => mul x v) xs)
  end.

Definition np_add_float (a : npval) (e : float) : npval :=
  match a with
  | Scalar x => Scalar (add x e)
  | Array xs => Array (map (fun x => add x e) xs)
  end.

(** [x + y] for two one-dimensional arrays, with numpy's broadcasting of
    an array of length one. *)
Definition elementwise_add (x y : vec) : vec :=
  map (fun ab => add (fst ab) (snd ab)) (combine x y).

Definition np_add (x y : vec) : result vec :=
  if (List.length x =? List.length y)%nat then Ok (elementwise_add x y)
  else match x, y with
       | _, [b] => Ok (map (fun a => add a b) x)
       | [a], _ => Ok (map (fun b => add a b) y)
       | _, _ => Raise ValueError
       end.

(** A two-dimensional array with its shape. *)
Record matrix : Type := mkMatrix {
  nrows : nat;
  ncols : nat;
  entries : list (list float)
}.

(** A [torch.float] tensor of two, respectively three, dimensions. *)
Record tensor2 : Type := mkTensor2 {
  rows2 : nat;
  cols2 : nat;
  data2 : list (list float32)
}.

Record tensor3 : Type := mkTensor3 {
  dim0 : nat;
  dim1 : nat;
  dim2 : nat;
  data3 : list (list (list float32))
}.

Fixpoint update_nth {A} (i : nat) (a : A) (l : list A) : list A :=
  match l, i with
  | [], _ => []
  | _ :: l', O => a :: l'
  | b :: l', S j => b :: update_nth j a l'
  end.

(** Broadcasting a list of length one to length [d]. *)
Definition expand {A} (d : nat) (l : list A) : list A :=
  if (List.length l =? d)%nat then l
  else match l with
       | [a] => repeat a d
       | _ => l
       end.

Definition broadcastable (n d : nat) : bool := (n =? d)%nat || (n =? 1)%nat.

Section Collate.

(** The contents of memory that [torch.empty] does not initialise. *)
Variable garbage : float32.

Definition torch_empty2 (n d : nat) : tensor2 :=
  mkTensor2 n d (repeat (repeat garbage d) n).

Definition torch_empty3 (n d0 d1 : nat) : tensor3 :=
  mkTensor3 n d0 d1 (repeat (repeat (repeat garbage d1) d0) n).

(** [t[i] = v] for a two-dimensional [t] and a one-dimensional [v]: the
    elements are converted to [torch.float]; [v] must have the length of
    a row of [t], or length one. *)
Definition setitem2 (t : tensor2) (i : nat) (v : vec) : result tensor2 :=
  if (i <? rows2 t)%nat then
    if broadcastable (List.length v) (cols2 t) then
      Ok (mkTensor2 (rows2 t) (cols2 t)
            (update_nth i (expand (cols2 t) (map to_float32 v)) (data2 t)))
    else Raise RuntimeError
  else Raise IndexError.

(** [t[i] = v] for a three-dimensional [t] and a two-dimensional [v]. *)
Definition setitem3 (t : tensor3) (i : nat) (v : matrix) : result tensor3 :=
  if (i <? dim0 t)%nat then
    if broadcastable (nrows v) (dim1 t) && broadcastable (ncols v) (dim2 t) then
      Ok (mkTensor3 (dim0 t) (dim1 t) (dim2 t)
            (update_nth i
               (expand (dim1 t)
                  (map (fun row => expand (dim2 t) (map to_float32 row))
                       (entries v)))
               (data3 t)))
    else Raise RuntimeError
  else Raise IndexError.

(** The unzipping of a batch of pairs into [x] and [y]: unpacking the
    two sequences fails on an empty batch. *)
Definition unzip {A B} (batch : list (A * B)) : result (list A * list B) :=
  match batch with
  | [] => Raise ValueError
  | _ => Ok (map fst batch, map snd batch)
  end.

(** [tensor.to(device)] keeps the shape and the elements. *)
Definition to_device {D T : Type} (t : T) (d : D) : T := t.

Section WithDevice.

Variable device : Type.

(** *** [MotionDataset] *)

Record MotionDataset : Type := mkMotionDataset {
  data : list vec;
  md_device : device;
  sigma : npval;
  variance : float;
  eps : float;
  add_noise : bool
}.

(** [MotionDataset.__init__]; the defaults of [variance] and
    [add_noise] are [0.01] and [True]. *)
Definition motion_init (data : list vec) (d : device) (sigma : npval)
  (variance : float) (add_noise : bool) : MotionDataset :=
  mkMotionDataset data d sigma variance (lit 1 (10 ^ 15)) add_noise.

Definition default_variance : float := lit 1 100.


(** The global random generator of numpy and
    [np.random.normal(loc, scale, size)], which draws [size] samples. *)
Variable rng : Type.
Variable np_random_normal :
  float -> npval -> Z -> rng -> result (vec * rng).

(** The scale of the noise. *)
Definition noise_scale (ds : MotionDataset) : npval :=
  np_add_float (np_multiply (sigma ds) (variance ds)) (eps ds).

Definition motion_getitem (ds : MotionDataset) (item : Z) (g : rng)
  : result ((vec * vec) * rng) :=
  x <- getitem (data ds) item ;;
  if add_noise ds then
    r <- np_random_normal (of_int 0) (noise_scale ds) (len x) g ;;
    noisy <- np_add x (fst r) ;;
    Ok ((noisy, x), snd r)
  else
    Ok ((x, x), g).

(** The loop of [collate_fn], from index [i] on. *)
Fixpoint motion_fill (idx : list nat) (x y : list vec)
  (input_tensor output_tensor : tensor2) : result (tensor2 * tensor2) :=
  match idx with
  | [] => Ok (input_tensor, output_tensor)
  | i :: rest =>
      xi <- getitem x (Z.of_nat i) ;;
      input_tensor <- setitem2 input_tensor i xi ;;
      yi <- getitem y (Z.of_nat i) ;;
      output_tensor <- setitem2 output_tensor i yi ;;
      motion_fill rest x y input_tensor output_tensor
  end.

Definition motion_collate_fn (ds : MotionDataset) (batch : list (vec * vec))
  : result (tensor2 * tensor2) :=
  xy <- unzip batch ;;
  let x := fst xy in
  let y := snd xy in
  let batch_size := List.length x in
  x0 <- getitem x 0 ;;
  y0 <- getitem y 0 ;;
  let input_tensor := torch_empty2 batch_size (List.length x0) in
  let output_tensor := torch_empty2 batch_size (List.length y0) in
  r <- motion_fill (seq 0 batch_size) x y input_tensor output_tensor ;;
  Ok (to_device (fst r) (md_device ds), to_device (snd r) (md_device ds)).

(** *** [SpeechMotionDataset]

    [X] holds one two-dimensional array per example and [Y] one
    one-dimensional array. *)
Record SpeechMotionDataset : Type := mkSpeechMotionDataset {
  X : list matrix;
  Y : list vec;
  sd_device : device
}.

Definition speech_len (ds : SpeechMotionDataset) : Z := len (X ds).

Definition speech_getitem (ds : SpeechMotionDataset) (item : Z)
  : result (matrix * vec) :=
  x <- getitem (X ds) item ;;
  y <- getitem (Y ds) item ;;
  Ok (x, y).

Fixpoint speech_fill (idx : list nat) (x : list matrix) (y : list vec)
  (input_tensor : tensor3) (output_tensor : tensor2)
  : result (tensor3 * tensor2) :=
  match idx with
  | [] => Ok (input_tensor, output_tensor)
  | i :: rest =>
      xi <- getitem x (Z.of_nat i) ;;
      input_tensor <- setitem3 input_tensor i xi ;;
      yi <- getitem y (Z.of_nat i) ;;
      output_tensor <- setitem2 output_tensor i yi ;;
      speech_fill rest x y input_tensor output_tensor
  end.

Definition speech_collate_fn (ds : SpeechMotionDataset)
  (batch : list (matrix * vec)) : result (tensor3 * tensor2) :=
  xy <- unzip batch ;;
  let x := fst xy in
  let y := snd xy in
  let batch_size := List.length x in
  x0 <- getitem x 0 ;;
  y0 <- getitem y 0 ;;
  let input_tensor := torch_empty3 batch_size (nrows x0) (ncols x0) in
  let output_tensor := torch_empty2 batch_size (List.length y0) in
  r <- speech_fill (seq 0 batch_size) x y input_tensor output_tensor ;;
  Ok (to_device (fst r) (sd_device ds), to_device (snd r) (sd_device ds)).

(** A well-formed matrix: its entries have its shape. *)
Definition well_formed (v : matrix) : Prop :=
  List.length (entries v) = nrows v /\
  forall row, In row (entries v) -> List.length row = ncols v.

Definition convert (v : matrix) : list (list float32) :=
  map (map to_float32) (entries v).

(** *** Indexing and row assignment *)

Lemma getitem_nth {A} (l : list A) k a :
  nth_error l k = Some a -> getitem l (Z.of_nat k) = Ok a.
Proof.
  intros H. unfold getitem, len.
  assert (k < List.length l)%nat by (apply nth_error_Some; congruence).
  destruct (Z.ltb_spec (Z.of_nat k) 0); [lia|].
  destruct (Z.leb_spec 0 (Z.of_nat k)); [|lia].
  destruct (Z.ltb_spec (Z.of_nat k) (Z.of_nat (List.length l))); [|lia].
  simpl. rewrite Nat2Z.id, H. reflexivity.
Qed.

(** A valid index, negative or not, selects the element at its
    position modulo the length. *)
Lemma getitem_valid {A} (l : list A) i :
  - len l <= i < len l ->
  exists a, getitem l i = Ok a /\
            nth_error l (Z.to_nat (i mod len l)) = Some a.
Proof.
  intros H. unfold getitem.
  assert (Hj : (if i <? 0 then i + len l else i) = i mod len l).
  { destruct (Z.ltb_spec i 0).
    - apply Z.mod_unique with (q := -1); lia.
    - symmetry. apply Z.mod_small. lia. }
  rewrite Hj.
  assert (0 <= i mod len l < len l) as Hr by (apply Z.mod_pos_bound; lia).
  destruct (Z.leb_spec 0 (i mod len l)); [|lia].
  destruct (Z.ltb_spec (i mod len l) (len l)); [|lia].
  simpl.
  destruct (nth_error l (Z.to_nat (i mod len l))) as [a|] eqn:E.
  - exists a. auto.
  - apply nth_error_None in E. unfold len in *. lia.
Qed.

Lemma update_nth_app {A} (l1 : list A) : forall i a b l2,
  List.length l1 = i ->
  update_nth i a (l1 ++ b :: l2) = l1 ++ a :: l2.
Proof.
  induction l1 as [|c l1 IH]; intros i a b l2 H; subst i; [reflexivity|].
  simpl. rewrite IH; reflexivity.
Qed.

Lemma expand_same {A} (l : list A) d : List.length l = d -> expand d l = l.
Proof. intros H. unfold expand. rewrite H, Nat.eqb_refl. reflexivity. Qed.

Lemma broadcastable_refl n : broadcastable n n = true.
Proof. unfold broadcastable. rewrite Nat.eqb_refl. reflexivity. Qed.

(** Assigning a row of the right length stores its conversion. *)
Lemma setitem2_row t i v done b todo :
  data2 t = done ++ b :: todo -> List.length done = i ->
  rows2 t = List.length (data2 t) -> List.length v = cols2 t ->
  setitem2 t i v =
  Ok (mkTensor2 (rows2 t) (cols2 t) (done ++ map to_float32 v :: todo)).
Proof.
  intros Hd Hi Hr Hv. unfold setitem2.
  assert ((i <? rows2 t)%nat = true) as E.
  { apply Nat.ltb_lt. rewrite Hr, Hd, length_app. simpl. lia. }
  rewrite E, Hv, broadcastable_refl.
  rewrite expand_same by (rewrite length_map; exact Hv).
  rewrite Hd, update_nth_app by exact Hi. reflexivity.
Qed.

Lemma setitem3_slice t i v done b todo :
  data3 t = done ++ b :: todo -> List.length done = i ->
  dim0 t = List.length (data3 t) ->
  well_formed v -> nrows v = dim1 t -> ncols v = dim2 t ->
  setitem3 t i v =
  Ok (mkTensor3 (dim0 t) (dim1 t) (dim2 t) (done ++ convert v :: todo)).
Proof.
  intros Hd Hi Hr [Hw1 Hw2] Hn Hc. unfold setitem3.
  assert ((i <? dim0 t)%nat = true) as E.
  { apply Nat.ltb_lt. rewrite Hr, Hd, length_app. simpl. lia. }
  rewrite E, Hn, Hc, !broadcastable_refl. simpl.
  assert (map (fun row => expand (dim2 t) (map to_float32 row)) (entries v)
          = convert v) as E1.
  { unfold convert. apply map_ext_in. intros row Hrow.
    apply expand_same. rewrite length_map, (Hw2 row Hrow). exact Hc. }
  rewrite E1.
  assert (expand (dim1 t) (convert v) = convert v) as E2.
  { apply expand_same. unfold convert. rewrite length_map, Hw1. exact Hn. }
  rewrite E2, Hd, update_nth_app by exact Hi. reflexivity.
Qed.

Lemma firstn_snoc {A} (l : list A) i a :
  nth_error l i = Some a -> firstn (S i) l = firstn i l ++ [a].
Proof.
  revert i. induction l as [|b l IH]; intros [|i] H; try discriminate.
  - inversion H. reflexivity.
  - simpl in H. change (b :: firstn (S i) l = b :: (firstn i l ++ [a])).
    rewrite (IH i H). reflexivity.
Qed.

(** The loop of [MotionDataset.collate_fn] on examples of one length:
    once the rows below [k] hold the first [k] examples, the remaining
    [n] iterations store the others. *)
Lemma motion_fill_uniform n : forall k x y tin tout gx gy,
  (k + n)%nat = List.length x -> List.length y = List.length x ->
  data2 tin = map (map to_float32) (firstn k x) ++ gx -> List.length gx = n ->
  data2 tout = map (map to_float32) (firstn k y) ++ gy -> List.length gy = n ->
  rows2 tin = List.length x -> rows2 tout = List.length x ->
  (forall v, In v x -> List.length v = cols2 tin) ->
  (forall v, In v y -> List.length v = cols2 tout) ->
  motion_fill (seq k n) x y tin tout =
  Ok (mkTensor2 (rows2 tin) (cols2 tin) (map (map to_float32) x),
      mkTensor2 (rows2 tout) (cols2 tout) (map (map to_float32) y)).
Proof.
  induction n as [|n IH]; intros k x y tin tout gx gy Hk Hy Hdx Hgx Hdy Hgy
    Hrx Hry Hcx Hcy.
  - destruct gx; [|discriminate]. destruct gy; [|discriminate].
    rewrite app_nil_r in *.
    rewrite firstn_all2 in Hdx by lia. rewrite firstn_all2 in Hdy by lia.
    simpl. destruct tin, tout; simpl in *; subst; reflexivity.
  - destruct gx as [|bx gx]; [discriminate|].
    destruct gy as [|by' gy]; [discriminate|].
    destruct (nth_error x k) as [xk|] eqn:Ex;
      [|apply nth_error_None in Ex; lia].
    destruct (nth_error y k) as [yk|] eqn:Ey;
      [|apply nth_error_None in Ey; lia].
    cbn [seq motion_fill]. unfold vec in *.
    rewrite (getitem_nth _ _ _ Ex). cbn [rbind].
    rewrite (setitem2_row tin k xk _ _ _ Hdx).
    2:{ rewrite length_map, length_firstn. lia. }
    2:{ rewrite Hdx, length_app, length_map, length_firstn. simpl in *; lia. }
    2:{ apply Hcx. eapply nth_error_In; eauto. }
    cbn [rbind]. rewrite (getitem_nth _ _ _ Ey). cbn [rbind].
    rewrite (setitem2_row tout k yk _ _ _ Hdy).
    2:{ rewrite length_map, length_firstn. lia. }
    2:{ rewrite Hdy, length_app, length_map, length_firstn. simpl in *. lia. }
    2:{ apply Hcy. eapply nth_error_In; eauto. }
    cbn [rbind].
    rewrite (IH (S k) x y _ _ gx gy); cbn [rows2 cols2 data2]; auto;
      try (simpl in *; lia).
    + rewrite (firstn_snoc _ _ _ Ex), map_app, <- app_assoc. reflexivity.
    + rewrite (firstn_snoc _ _ _ Ey), map_app, <- app_assoc. reflexivity.
Qed.

Lemma speech_fill_uniform n : forall k x y tin tout gx gy,
  (k + n)%nat = List.length x -> List.length y = List.length x ->
  data3 tin = map convert (firstn k x) ++ gx -> List.length gx = n ->
  data2 tout = map (map to_float32) (firstn k y) ++ gy -> List.length gy = n ->
  dim0 tin = List.length x -> rows2 tout = List.length x ->
  (forall v, In v x ->
     well_formed v /\ nrows v = dim1 tin /\ ncols v = dim2 tin) ->
  (forall v, In v y -> List.length v = cols2 tout) ->
  speech_fill (seq k n) x y tin tout =
  Ok (mkTensor3 (dim0 tin) (dim1 tin) (dim2 tin) (map convert x),
      mkTensor2 (rows2 tout) (cols2 tout) (map (map to_float32) y)).
Proof.
  induction n as [|n IH]; intros k x y tin tout gx gy Hk Hy Hdx Hgx Hdy Hgy
    Hrx Hry Hcx Hcy.
  - destruct gx; [|discriminate]. destruct gy; [|discriminate].
    rewrite app_nil_r in *.
    rewrite firstn_all2 in Hdx by lia. rewrite firstn_all2 in Hdy by lia.
    simpl. destruct tin, tout; simpl in *; subst; reflexivity.
  - destruct gx as [|bx gx]; [discriminate|].
    destruct gy as [|by' gy]; [discriminate|].
    destruct (nth_error x k) as [xk|] eqn:Ex;
      [|apply nth_error_None in Ex; lia].
    destruct (nth_error y k) as [yk|] eqn:Ey;
      [|apply nth_error_None in Ey; lia].
    destruct (Hcx xk (nth_error_In _ _ Ex)) as (Hw & Hn & Hc).
    cbn [seq speech_fill]. unfold vec in *.
    rewrite (getitem_nth _ _ _ Ex). cbn [rbind].
    rewrite (setitem3_slice tin k xk _ _ _ Hdx); auto.
    2:{ rewrite length_map, length_firstn. lia. }
    2:{ rewrite Hdx, length_app, length_map, length_firstn. simpl in *; lia. }
    cbn [rbind]. rewrite (getitem_nth _ _ _ Ey). cbn [rbind].
    rewrite (setitem2_row tout k yk _ _ _ Hdy).
    2:{ rewrite length_map, length_firstn. lia. }
    2:{ rewrite Hdy, length_app, length_map, length_firstn. simpl in *. lia. }
    2:{ apply Hcy. eapply nth_error_In; eauto. }
    cbn [rbind].
    rewrite (IH (S k) x y _ _ gx gy);
      cbn [rows2 cols2 data2 dim0 dim1 dim2 data3]; auto;
      try (simpl in *; lia).
    + rewrite (firstn_snoc _ _ _ Ex), map_app, <- app_assoc. reflexivity.
    + rewrite (firstn_snoc _ _ _ Ey), map_app, <- app_assoc. reflexivity.
Qed.

Lemma elementwise_add_nth x : forall y k a b,
  nth_error x k = Some a -> nth_error y k = Some b ->
  nth_error (elementwise_add x y) k = Some (add a b).
Proof.
  unfold elementwise_add.
  induction x as [|a0 x IH]; intros y k a b Ha Hb; [destruct k; discriminate|].
  destruct y as [|b0 y]; [destruct k; discriminate|].
  destruct k as [|k]; cbn [combine map nth_error fst snd] in *.
  - inversion Ha; inversion Hb; subst. reflexivity.
  - apply IH; assumption.
Qed.

(** C7: for a valid index [__getitem__] returns a pair whose second
    component is the clean frame [data[item]]; without noise the first
    component is that same frame, and with noise it has the length of
    the frame and its [k]-th element is the [k]-th element of the frame
    plus the [k]-th sample of the noise, drawn with location [0.0], one
    sample per element, and with the scale [sigma * variance + 1e-15]
    (computed element by element when [sigma] is an array). *)
Theorem motion_getitem_pairs frames dev sg var noisy item g :
  let ds := motion_init frames dev sg var noisy in
  - len frames <= item < len frames ->
  (forall loc scale n g0 r,
     np_random_normal loc scale n g0 = Ok r -> len (fst r) = n) ->
  exists x scale,
    getitem frames item = Ok x /\
    nth_error frames (Z.to_nat (item mod len frames)) = Some x /\
    (forall s, sg = Scalar s ->
       scale = Scalar (add (mul s var) (lit 1 (10 ^ 15)))) /\
    (forall ss, sg = Array ss ->
       exists cs,
         scale = Array cs /\ List.length cs = List.length ss /\
         forall k s, nth_error ss k = Some s ->
           nth_error cs k = Some (add (mul s var) (lit 1 (10 ^ 15)))) /\
    (noisy = false -> motion_getitem ds item g = Ok ((x, x), g)) /\
    (noisy = true ->
     match np_random_normal (of_int 0) scale (len x) g with
     | Ok (noise, g') =>
         exists a,
           motion_getitem ds item g = Ok ((a, x), g') /\
           List.length a = List.length x /\
           List.length noise = List.length x /\
           forall k xk nk,
             nth_error x k = Some xk -> nth_error noise k = Some nk ->
             nth_error a k = Some (add xk nk)
     | Raise e => motion_getitem ds item g = Raise e
     end).
Proof.
  intros ds Hitem Hsize.
  destruct (getitem_valid frames item Hitem) as (x & Hx & Hn).
  exists x, (noise_scale ds).
  split; [exact Hx|]. split; [exact Hn|]. split; [|split].
  - intros s ->. reflexivity.
  - intros ss ->. unfold noise_scale. cbn [ds motion_init sigma variance eps].
    cbn [np_multiply np_add_float]. eexists. split; [reflexivity|].
    split; [rewrite !length_map; reflexivity|].
    intros k s Hs. rewrite map_map.
    rewrite (map_nth_error _ _ _ Hs). reflexivity.
  - unfold motion_getitem. cbn [data add_noise ds motion_init].
    rewrite Hx. cbn [rbind]. split; intros E; rewrite E; [reflexivity|].
    fold ds.
    destruct (np_random_normal (of_int 0) (noise_scale ds) (len x) g)
      as [[noise g']|e] eqn:En; cbn [rbind]; [|reflexivity].
    pose proof (Hsize _ _ _ _ _ En) as Hl. cbn [fst snd] in *.
    assert (List.length noise = List.length x) as Hl'
        by (unfold len in Hl; lia).
    unfold np_add. rewrite <- Hl', Nat.eqb_refl. cbn [rbind].
    exists (elementwise_add x noise). split; [reflexivity|].
    split; [|split; [reflexivity|]].
    + unfold elementwise_add. rewrite length_map, length_combine. lia.
    + intros k xk nk Hxk Hnk. apply elementwise_add_nth; assumption.
Qed.

(** C6, as amended: on a batch that is not empty and whose examples all
    have the shape of the first one, each [collate_fn] returns a pair of
    [torch.float] tensors whose first dimension is the number of
    examples, whose other dimensions are those of the first example, and
    whose [i]-th row is the [i]-th example converted to [torch.float]. *)
Theorem collate_uniform_batches :
  (forall ds (batch : list (vec * vec)) x0 y0 rest,
     batch = (x0, y0) :: rest ->
     (forall ex, In ex batch ->
        List.length (fst ex) = List.length x0 /\
        List.length (snd ex) = List.length y0) ->
     motion_collate_fn ds batch =
     Ok (mkTensor2 (List.length batch) (List.length x0)
           (map (fun ex => map to_float32 (fst ex)) batch),
         mkTensor2 (List.length batch) (List.length y0)
           (map (fun ex => map to_float32 (snd ex)) batch))) /\
  (forall ds (batch : list (matrix * vec)) x0 y0 rest,
     batch = (x0, y0) :: rest ->
     (forall ex, In ex batch ->
        well_formed (fst ex) /\ nrows (fst ex) = nrows x0 /\
        ncols (fst ex) = ncols x0 /\
        List.length (snd ex) = List.length y0) ->
     speech_collate_fn ds batch =
     Ok (mkTensor3 (List.length batch) (nrows x0) (ncols x0)
           (map (fun ex => convert (fst ex)) batch),
         mkTensor2 (List.length batch) (List.length y0)
           (map (fun ex => map to_float32 (snd ex)) batch))).
Proof.
  split; intros ds batch x0 y0 rest Hb Hall.
  - unfold motion_collate_fn.
    assert (unzip batch = Ok (map fst batch, map snd batch)) as Hu
        by (rewrite Hb; reflexivity).
    rewrite Hu. cbn [rbind fst snd].
    assert (getitem (map fst batch) 0 = Ok x0) as Hx0
        by (rewrite Hb; reflexivity).
    assert (getitem (map snd batch) 0 = Ok y0) as Hy0
        by (rewrite Hb; reflexivity).
    rewrite Hx0. cbn [rbind]. rewrite Hy0. cbn [rbind].
    rewrite (motion_fill_uniform (List.length (map fst batch)) 0
               (map fst batch) (map snd batch) _ _
               (repeat (repeat garbage (List.length x0))
                       (List.length (map fst batch)))
               (repeat (repeat garbage (List.length y0))
                       (List.length (map fst batch))));
      cbn [rows2 cols2 data2 torch_empty2 firstn map app rbind fst snd];
      rewrite ?repeat_length, ?length_map; auto.
    + rewrite !map_map. reflexivity.
    + intros v Hv. apply in_map_iff in Hv. destruct Hv as (ex & <- & Hex).
      apply (Hall ex Hex).
    + intros v Hv. apply in_map_iff in Hv. destruct Hv as (ex & <- & Hex).
      apply (Hall ex Hex).
  - unfold speech_collate_fn.
    assert (unzip batch = Ok (map fst batch, map snd batch)) as Hu
        by (rewrite Hb; reflexivity).
    rewrite Hu. cbn [rbind fst snd].
    assert (getitem (map fst batch) 0 = Ok x0) as Hx0
        by (rewrite Hb; reflexivity).
    assert (getitem (map snd batch) 0 = Ok y0) as Hy0
        by (rewrite Hb; reflexivity).
    rewrite Hx0. cbn [rbind]. rewrite Hy0. cbn [rbind].
    rewrite (speech_fill_uniform (List.length (map fst batch)) 0
               (map fst batch) (map snd batch) _ _
               (repeat (repeat (repeat garbage (ncols x0)) (nrows x0))
                       (List.length (map fst batch)))
               (repeat (repeat garbage (List.length y0))
                       (List.length (map fst batch))));
      cbn [rows2 cols2 data2 dim0 dim1 dim2 data3 torch_empty2 torch_empty3
           firstn map app rbind fst snd];
      rewrite ?repeat_length, ?length_map; auto.
    + rewrite !map_map. reflexivity.
    + intros v Hv. apply in_map_iff in Hv. destruct Hv as (ex & <- & Hex).
      destruct (Hall ex Hex) as (H1 & H2 & H3 & _). auto.
    + intros v Hv. apply in_map_iff in Hv. destruct Hv as (ex & <- & Hex).
      apply (Hall ex Hex).
Qed.

(** *** Further properties of the datasets *)

(** What a row assignment stores, and whether it is accepted. *)
Definition stored_row (d : nat) (v : vec) : list float32 :=
  expand d (map to_float32 v).

Definition fits_row (d : nat) (v : vec) : bool :=
  broadcastable (List.length v) d.

Definition stored_slice (d0 d1 : nat) (v : matrix) : list (list float32) :=
  expand d0 (map (fun row => expand d1 (map to_float32 row)) (entries v)).

Definition fits_slice (d0 d1 : nat) (v : matrix) : bool :=
  broadcastable (nrows v) d0 && broadcastable (ncols v) d1.

(** The items a dataset returns for the indices [idx], in order, as a
    loader collects them for one batch. *)
Fixpoint motion_items (ds : MotionDataset) (idx : list Z) (g : rng)
  : result (list (vec * vec) * rng) :=
  match idx with
  | [] => Ok ([], g)
  | i :: rest =>
      r <- motion_getitem ds i g ;;
      rs <- motion_items ds rest (snd r) ;;
      Ok (fst r :: fst rs, snd rs)
  end.

Lemma getitem_out_of_range {A} (l : list A) i :
  i < - len l \/ len l <= i -> getitem l i = Raise IndexError.
Proof.
  intros H. unfold getitem.
  destruct (Z.ltb_spec i 0).
  - destruct (Z.leb_spec 0 (i + len l)); [|reflexivity].
    destruct (Z.ltb_spec (i + len l) (len l)); simpl; [|reflexivity].
    unfold len in *. lia.
  - destruct (Z.leb_spec 0 i); [|reflexivity].
    destruct (Z.ltb_spec i (len l)); simpl; [|reflexivity].
    unfold len in *. lia.
Qed.

Lemma getitem_in_range {A} (l : list A) i a :
  getitem l i = Ok a -> - len l <= i < len l.
Proof.
  intros H.
  destruct (Z.lt_ge_cases i (- len l)) as [C|C];
    [rewrite getitem_out_of_range in H by lia; discriminate|].
  destruct (Z.lt_ge_cases i (len l)) as [C'|C']; [lia|].
  rewrite getitem_out_of_range in H by lia. discriminate.
Qed.


Lemma forallb_map {A B} (f : B -> bool) (g : A -> B) (l : list A) :
  forallb f (map g l) = forallb (fun a => f (g a)) l.
Proof.
  induction l as [|a l IH]; [reflexivity|]. simpl. rewrite IH. reflexivity.
Qed.

Lemma skipn_nth {A} (l : list A) : forall k a,
  nth_error l k = Some a -> skipn k l = a :: skipn (S k) l.
Proof.
  induction l as [|b l IH]; intros [|k] a H; try discriminate.
  - inversion H. reflexivity.
  - simpl in H. apply (IH k a H).
Qed.

Lemma setitem2_general t i v done b todo :
  data2 t = done ++ b :: todo -> List.length done = i ->
  rows2 t = List.length (data2 t) ->
  setitem2 t i v =
  if fits_row (cols2 t) v then
    Ok (mkTensor2 (rows2 t) (cols2 t) (done ++ stored_row (cols2 t) v :: todo))
  else Raise RuntimeError.
Proof.
  intros Hd Hi Hr. unfold setitem2, fits_row, stored_row.
  assert ((i <? rows2 t)%nat = true) as E.
  { apply Nat.ltb_lt. rewrite Hr, Hd, length_app. simpl. lia. }
  rewrite E. destruct (broadcastable _ _); [|reflexivity].
  rewrite Hd, update_nth_app by exact Hi. reflexivity.
Qed.

Lemma setitem3_general t i v done b todo :
  data3 t = done ++ b :: todo -> List.length done = i ->
  dim0 t = List.length (data3 t) ->
  setitem3 t i v =
  if fits_slice (dim1 t) (dim2 t) v then
    Ok (mkTensor3 (dim0 t) (dim1 t) (dim2 t)
          (done ++ stored_slice (dim1 t) (dim2 t) v :: todo))
  else Raise RuntimeError.
Proof.
  intros Hd Hi Hr. unfold setitem3, fits_slice, stored_slice.
  assert ((i <? dim0 t)%nat = true) as E.
  { apply Nat.ltb_lt. rewrite Hr, Hd, length_app. simpl. lia. }
  rewrite E. destruct (_ && _); [|reflexivity].
  rewrite Hd, update_nth_app by exact Hi. reflexivity.
Qed.

(** The loop of [MotionDataset.collate_fn] in general: it stores every
    example, broadcast to the width of the tensor, or raises at the
    first example that does not fit. *)
Lemma motion_fill_general n : forall k x y tin tout gx gy,
  (k + n)%nat = List.length x -> List.length y = List.length x ->
  data2 tin = map (stored_row (cols2 tin)) (firstn k x) ++ gx ->
  List.length gx = n ->
  data2 tout = map (stored_row (cols2 tout)) (firstn k y) ++ gy ->
  List.length gy = n ->
  rows2 tin = List.length x -> rows2 tout = List.length x ->
  motion_fill (seq k n) x y tin tout =
  if forallb (fits_row (cols2 tin)) (skipn k x)
     && forallb (fits_row (cols2 tout)) (skipn k y)
  then Ok (mkTensor2 (rows2 tin) (cols2 tin) (map (stored_row (cols2 tin)) x),
           mkTensor2 (rows2 tout) (cols2 tout)
                     (map (stored_row (cols2 tout)) y))
  else Raise RuntimeError.
Proof.
  induction n as [|n IH]; intros k x y tin tout gx gy Hk Hy Hdx Hgx Hdy Hgy
    Hrx Hry.
  - destruct gx; [|discriminate]. destruct gy; [|discriminate].
    rewrite app_nil_r in *.
    rewrite firstn_all2 in Hdx by lia. rewrite firstn_all2 in Hdy by lia.
    rewrite !skipn_all2 by lia.
    simpl. destruct tin, tout; simpl in *; subst; reflexivity.
  - destruct gx as [|bx gx]; [discriminate|].
    destruct gy as [|by' gy]; [discriminate|].
    destruct (nth_error x k) as [xk|] eqn:Ex;
      [|apply nth_error_None in Ex; lia].
    destruct (nth_error y k) as [yk|] eqn:Ey;
      [|apply nth_error_None in Ey; lia].
    rewrite (skipn_nth _ _ _ Ex), (skipn_nth _ _ _ Ey).
    cbn [seq motion_fill forallb]. unfold vec in *.
    rewrite (getitem_nth _ _ _ Ex). cbn [rbind].
    rewrite (setitem2_general tin k xk _ _ _ Hdx).
    2:{ rewrite length_map, length_firstn. lia. }
    2:{ rewrite Hdx, length_app, length_map, length_firstn. simpl in *; lia. }
    destruct (fits_row (cols2 tin) xk); cbn [rbind andb]; [|reflexivity].
    rewrite (getitem_nth _ _ _ Ey). cbn [rbind].
    rewrite (setitem2_general tout k yk _ _ _ Hdy).
    2:{ rewrite length_map, length_firstn. lia. }
    2:{ rewrite Hdy, length_app, length_map, length_firstn. simpl in *; lia. }
    destruct (fits_row (cols2 tout) yk); cbn [rbind andb];
      [|rewrite andb_false_r; reflexivity].
    rewrite (IH (S k) x y _ _ gx gy); cbn [rows2 cols2 data2]; auto;
      try (simpl in *; lia).
    + rewrite (firstn_snoc _ _ _ Ex), map_app, <- app_assoc. reflexivity.
    + rewrite (firstn_snoc _ _ _ Ey), map_app, <- app_assoc. reflexivity.
Qed.

Lemma speech_fill_general n : forall k x y tin tout gx gy,
  (k + n)%nat = List.length x -> List.length y = List.length x ->
  data3 tin = map (stored_slice (dim1 tin) (dim2 tin)) (firstn k x) ++ gx ->
  List.length gx = n ->
  data2 tout = map (stored_row (cols2 tout)) (firstn k y) ++ gy ->
  List.length gy = n ->
  dim0 tin = List.length x -> rows2 tout = List.length x ->
  speech_fill (seq k n) x y tin tout =
  if forallb (fits_slice (dim1 tin) (dim2 tin)) (skipn k x)
     && forallb (fits_row (cols2 tout)) (skipn k y)
  then Ok (mkTensor3 (dim0 tin) (dim1 tin) (dim2 tin)
                     (map (stored_slice (dim1 tin) (dim2 tin)) x),
           mkTensor2 (rows2 tout) (cols2 tout)
                     (map (stored_row (cols2 tout)) y))
  else Raise RuntimeError.
Proof.
  induction n as [|n IH]; intros k x y tin tout gx gy Hk Hy Hdx Hgx Hdy Hgy
    Hrx Hry.
  - destruct gx; [|discriminate]. destruct gy; [|discriminate].
    rewrite app_nil_r in *.
    rewrite firstn_all2 in Hdx by lia. rewrite firstn_all2 in Hdy by lia.
    rewrite !skipn_all2 by lia.
    simpl. destruct tin, tout; simpl in *; subst; reflexivity.
  - destruct gx as [|bx gx]; [discriminate|].
    destruct gy as [|by' gy]; [discriminate|].
    destruct (nth_error x k) as [xk|] eqn:Ex;
      [|apply nth_error_None in Ex; lia].
    destruct (nth_error y k) as [yk|] eqn:Ey;
      [|apply nth_error_None in Ey; lia].
    rewrite (skipn_nth _ _ _ Ex), (skipn_nth _ _ _ Ey).
    cbn [seq speech_fill forallb]. unfold vec in *.
    rewrite (getitem_nth _ _ _ Ex). cbn [rbind].
    rewrite (setitem3_general tin k xk _ _ _ Hdx).
    2:{ rewrite length_map, length_firstn. lia. }
    2:{ rewrite Hdx, length_app, length_map, length_firstn. simpl in *; lia. }
    destruct (fits_slice (dim1 tin) (dim2 tin) xk); cbn [rbind andb];
      [|reflexivity].
    rewrite (getitem_nth _ _ _ Ey). cbn [rbind].
    rewrite (setitem2_general tout k yk _ _ _ Hdy).
    2:{ rewrite length_map, length_firstn. lia. }
    2:{ rewrite Hdy, length_app, length_map, length_firstn. simpl in *; lia. }
    destruct (fits_row (cols2 tout) yk); cbn [rbind andb];
      [|rewrite andb_false_r; reflexivity].
    rewrite (IH (S k) x y _ _ gx gy);
      cbn [rows2 cols2 data2 dim0 dim1 dim2 data3]; auto;
      try (simpl in *; lia).
    + rewrite (firstn_snoc _ _ _ Ex), map_app, <- app_assoc. reflexivity.
    + rewrite (firstn_snoc _ _ _ Ey), map_app, <- app_assoc. reflexivity.
Qed.

(** What [MotionDataset.collate_fn] returns, in every case. *)
Definition motion_collated (batch : list (vec * vec))
  : result (tensor2 * tensor2) :=
  match batch with
  | [] => Raise ValueError
  | (x0, y0) :: _ =>
      let d := List.length x0 in
      let d' := List.length y0 in
      if forallb (fun ex => fits_row d (fst ex)) batch
         && forallb (fun ex => fits_row d' (snd ex)) batch
      then Ok (mkTensor2 (List.length batch) d
                 (map (fun ex => stored_row d (fst ex)) batch),
               mkTensor2 (List.length batch) d'
                 (map (fun ex => stored_row d' (snd ex)) batch))
      else Raise RuntimeError
  end.

Definition speech_collated (batch : list (matrix * vec))
  : result (tensor3 * tensor2) :=
  match batch with
  | [] => Raise ValueError
  | (x0, y0) :: _ =>
      let d0 := nrows x0 in
      let d1 := ncols x0 in
      let d' := List.length y0 in
      if forallb (fun ex => fits_slice d0 d1 (fst ex)) batch
         && forallb (fun ex => fits_row d' (snd ex)) batch
      then Ok (mkTensor3 (List.length batch) d0 d1
                 (map (fun ex => stored_slice d0 d1 (fst ex)) batch),
               mkTensor2 (List.length batch) d'
                 (map (fun ex => stored_row d' (snd ex)) batch))
      else Raise RuntimeError
  end.

Lemma motion_collate_eval ds batch :
  motion_collate_fn ds batch = motion_collated batch.
Proof.
  destruct batch as [|[x0 y0] rest]; [reflexivity|].
  unfold motion_collate_fn, motion_collated.
  set (batch := (x0, y0) :: rest).
  assert (unzip batch = Ok (map fst batch, map snd batch)) as Hu by reflexivity.
  rewrite Hu. cbn [rbind fst snd].
  assert (getitem (map fst batch) 0 = Ok x0) as Hx0 by reflexivity.
  assert (getitem (map snd batch) 0 = Ok y0) as Hy0 by reflexivity.
  rewrite Hx0. cbn [rbind]. rewrite Hy0. cbn [rbind].
  rewrite (motion_fill_general (List.length (map fst batch)) 0
             (map fst batch) (map snd batch) _ _
             (repeat (repeat garbage (List.length x0))
                     (List.length (map fst batch)))
             (repeat (repeat garbage (List.length y0))
                     (List.length (map fst batch))));
    cbn [rows2 cols2 data2 torch_empty2 firstn map app skipn];
    rewrite ?repeat_length, ?length_map; auto.
  rewrite !forallb_map, !map_map.
  destruct (_ && _); reflexivity.
Qed.

Lemma speech_collate_eval ds batch :
  speech_collate_fn ds batch = speech_collated batch.
Proof.
  destruct batch as [|[x0 y0] rest]; [reflexivity|].
  unfold speech_collate_fn, speech_collated.
  set (batch := (x0, y0) :: rest).
  assert (unzip batch = Ok (map fst batch, map snd batch)) as Hu by reflexivity.
  rewrite Hu. cbn [rbind fst snd].
  assert (getitem (map fst batch) 0 = Ok x0) as Hx0 by reflexivity.
  assert (getitem (map snd batch) 0 = Ok y0) as Hy0 by reflexivity.
  rewrite Hx0. cbn [rbind]. rewrite Hy0. cbn [rbind].
  rewrite (speech_fill_general (List.length (map fst batch)) 0
             (map fst batch) (map snd batch) _ _
             (repeat (repeat (repeat garbage (ncols x0)) (nrows x0))
                     (List.length (map fst batch)))
             (repeat (repeat garbage (List.length y0))
                     (List.length (map fst batch))));
    cbn [rows2 cols2 data2 dim0 dim1 dim2 data3 torch_empty2 torch_empty3
         firstn map app skipn];
    rewrite ?repeat_length, ?length_map; auto.
  rewrite !forallb_map, !map_map.
  destruct (_ && _); reflexivity.
Qed.

Lemma forallb_false_exists {A} (f : A -> bool) (l : list A) :
  forallb f l = false <-> exists a, In a l /\ f a = false.
Proof.
  induction l as [|b l IH]; simpl.
  - split; [discriminate | intros (a & [] & _)].
  - destruct (f b) eqn:E; simpl.
    + rewrite IH. split.
      * intros (a & Ha & Hf). exists a. auto.
      * intros (a & [Ha|Ha] & Hf); [subst; congruence | exists a; auto].
    + split; [|reflexivity]. intros _. exists b. auto.
Qed.

(** [MotionDataset.collate_fn] in every case: it raises [ValueError] on
    an empty batch and [RuntimeError] when an input or an output has a
    length that is neither that of the first example nor one; otherwise
    it returns two tensors with one row per example, as wide as the
    first example, each row holding its example converted to
    [torch.float], an example of length one repeated over the row. *)
Theorem motion_collate_fn_cases ds batch :
  (batch = [] -> motion_collate_fn ds batch = Raise ValueError) /\
  (forall x0 y0 rest, batch = (x0, y0) :: rest ->
     ((exists ex, In ex batch /\
         (fits_row (List.length x0) (fst ex) = false \/
          fits_row (List.length y0) (snd ex) = false)) ->
      motion_collate_fn ds batch = Raise RuntimeError) /\
     ((forall ex, In ex batch ->
         fits_row (List.length x0) (fst ex) = true /\
         fits_row (List.length y0) (snd ex) = true) ->
      motion_collate_fn ds batch =
      Ok (mkTensor2 (List.length batch) (List.length x0)
            (map (fun ex => stored_row (List.length x0) (fst ex)) batch),
          mkTensor2 (List.length batch) (List.length y0)
            (map (fun ex => stored_row (List.length y0) (snd ex)) batch)))).
Proof.
  rewrite motion_collate_eval. split; [intros ->; reflexivity|].
  intros x0 y0 rest ->. unfold motion_collated.
  set (batch := (x0, y0) :: rest). split.
  - intros (ex & Hex & Hbad).
    assert (forallb (fun e => fits_row (List.length x0) (fst e)) batch
            && forallb (fun e => fits_row (List.length y0) (snd e)) batch
            = false) as E.
    { apply andb_false_iff. destruct Hbad as [Hbad|Hbad]; [left|right];
        apply forallb_false_exists; exists ex; auto. }
    rewrite E. reflexivity.
  - intros Hall.
    assert (forallb (fun e => fits_row (List.length x0) (fst e)) batch
            && forallb (fun e => fits_row (List.length y0) (snd e)) batch
            = true) as E.
    { apply andb_true_iff. split; apply forallb_forall; intros e He;
        apply (Hall e He). }
    rewrite E. reflexivity.
Qed.

(** [SpeechMotionDataset.collate_fn] in every case, likewise: the
    inputs are checked against the two dimensions of the first input. *)
Theorem speech_collate_fn_cases ds batch :
  (batch = [] -> speech_collate_fn ds batch = Raise ValueError) /\
  (forall x0 y0 rest, batch = (x0, y0) :: rest ->
     ((exists ex, In ex batch /\
         (fits_slice (nrows x0) (ncols x0) (fst ex) = false \/
          fits_row (List.length y0) (snd ex) = false)) ->
      speech_collate_fn ds batch = Raise RuntimeError) /\
     ((forall ex, In ex batch ->
         fits_slice (nrows x0) (ncols x0) (fst ex) = true /\
         fits_row (List.length y0) (snd ex) = true) ->
      speech_collate_fn ds batch =
      Ok (mkTensor3 (List.length batch) (nrows x0) (ncols x0)
            (map (fun ex => stored_slice (nrows x0) (ncols x0) (fst ex)) batch),
          mkTensor2 (List.length batch) (List.length y0)
            (map (fun ex => stored_row (List.length y0) (snd ex)) batch)))).
Proof.
  rewrite speech_collate_eval. split; [intros ->; reflexivity|].
  intros x0 y0 rest ->. unfold speech_collated.
  set (batch := (x0, y0) :: rest). split.
  - intros (ex & Hex & Hbad).
    assert (forallb (fun e => fits_slice (nrows x0) (ncols x0) (fst e)) batch
            && forallb (fun e => fits_row (List.length y0) (snd e)) batch
            = false) as E.
    { apply andb_false_iff. destruct Hbad as [Hbad|Hbad]; [left|right];
        apply forallb_false_exists; exists ex; auto. }
    rewrite E. reflexivity.
  - intros Hall.
    assert (forallb (fun e => fits_slice (nrows x0) (ncols x0) (fst e)) batch
            && forallb (fun e => fits_row (List.length y0) (snd e)) batch
            = true) as E.
    { apply andb_true_iff. split; apply forallb_forall; intros e He;
        apply (Hall e He). }
    rewrite E. reflexivity.
Qed.


(** When [X] and [Y] have the same length, [__getitem__] returns for
    every index in range the input and the output at one and the same
    position; when [Y] is shorter, the indices from [len(Y)] on raise
    [IndexError] although they are below [len(dataset)]. *)
Theorem speech_getitem_pairs ds item :
  (len (X ds) = len (Y ds) ->
   - speech_len ds <= item < speech_len ds ->
   exists x y,
     speech_getitem ds item = Ok (x, y) /\
     nth_error (X ds) (Z.to_nat (item mod speech_len ds)) = Some x /\
     nth_error (Y ds) (Z.to_nat (item mod speech_len ds)) = Some y) /\
  (len (Y ds) <= item < speech_len ds ->
   speech_getitem ds item = Raise IndexError) /\
  (item < - speech_len ds \/ speech_len ds <= item ->
   speech_getitem ds item = Raise IndexError).
Proof.
  unfold speech_len, speech_getitem. split; [|split].
  - intros Hlen H.
    destruct (getitem_valid (X ds) item H) as (x & Hx & Hnx).
    rewrite Hlen in H.
    destruct (getitem_valid (Y ds) item H) as (y & Hy & Hny).
    exists x, y. rewrite Hx, Hy. cbn [rbind].
    split; [reflexivity|]. split; [exact Hnx|]. rewrite Hlen. exact Hny.
  - intros H.
    assert (- len (X ds) <= item < len (X ds)) as Hx
        by (unfold len in *; lia).
    destruct (getitem_valid (X ds) item Hx) as (x & Hgx & _).
    rewrite Hgx. cbn [rbind].
    rewrite getitem_out_of_range by lia. reflexivity.
  - intros H. rewrite getitem_out_of_range by exact H. reflexivity.
Qed.

Lemma getitem_In {A} (l : list A) i a : getitem l i = Ok a -> In a l.
Proof.
  intros H. destruct (getitem_valid l i (getitem_in_range _ _ _ H))
    as (b & Hb & Hn).
  rewrite H in Hb. inversion Hb; subst. eapply nth_error_In; eauto.
Qed.

Lemma elementwise_add_length x y :
  List.length y = List.length x ->
  List.length (elementwise_add x y) = List.length x.
Proof.
  intros H. unfold elementwise_add. rewrite length_map, length_combine. lia.
Qed.

Section Items.

(** [np.random.normal] returns as many samples as it is asked for. *)
Hypothesis normal_size : forall loc scale n g0 r,
  np_random_normal loc scale n g0 = Ok r -> len (fst r) = n.

Lemma motion_getitem_shape ds i g a x g' :
  motion_getitem ds i g = Ok ((a, x), g') ->
  getitem (data ds) i = Ok x /\
  List.length a = List.length x /\
  (add_noise ds = false -> a = x /\ g' = g).
Proof.
  unfold motion_getitem. destruct (getitem (data ds) i) as [x'|e] eqn:Ex;
    cbn [rbind]; [|discriminate].
  destruct (add_noise ds).
  - destruct (np_random_normal (of_int 0) (noise_scale ds) (len x') g)
      as [[noise g1]|e] eqn:En; cbn [rbind]; [|discriminate].
    pose proof (normal_size _ _ _ _ _ En) as Hl. cbn [fst snd] in *.
    assert (List.length noise = List.length x') as Hl'
        by (unfold len in Hl; lia).
    unfold np_add. rewrite <- Hl', Nat.eqb_refl. cbn [rbind].
    intros H. inversion H; subst.
    split; [reflexivity|]. split; [|discriminate].
    apply elementwise_add_length. exact Hl'.
  - intros H. inversion H; subst. auto.
Qed.

Lemma motion_items_shape ds d idx : forall g batch g',
  (forall v, In v (data ds) -> List.length v = d) ->
  motion_items ds idx g = Ok (batch, g') ->
  List.length batch = List.length idx /\
  (forall ex, In ex batch ->
     List.length (fst ex) = d /\ List.length (snd ex) = d) /\
  Forall2 (fun i ex => getitem (data ds) i = Ok (snd ex)) idx batch /\
  (add_noise ds = false -> map fst batch = map snd batch /\ g' = g).
Proof.
  induction idx as [|i rest IH]; intros g batch g' Hd H.
  - simpl in H. inversion H; subst.
    split; [reflexivity|]. split; [intros ex []|]. split; [constructor|].
    auto.
  - cbn [motion_items] in H.
    destruct (motion_getitem ds i g) as [[[a x] g1]|e] eqn:E1;
      cbn [rbind fst snd] in H; [|discriminate].
    destruct (motion_items ds rest g1) as [[rs g2]|e] eqn:E2;
      cbn [rbind fst snd] in H; [|discriminate].
    inversion H; subst. clear H.
    destruct (motion_getitem_shape _ _ _ _ _ _ E1) as (Hx & Hlen & Hclean).
    destruct (IH _ _ _ Hd E2) as (Hl & Hall & Hf2 & Hc).
    pose proof (Hd x (getitem_In _ _ _ Hx)) as Hxd.
    split; [simpl; lia|]. split; [|split].
    + intros ex [<-|Hex]; [cbn [fst snd]; split; lia | apply Hall; exact Hex].
    + constructor; [exact Hx | exact Hf2].
    + intros Hn. destruct (Hclean Hn) as (-> & ->).
      destruct (Hc Hn) as (Hm & ->). cbn [map fst snd]. rewrite Hm. auto.
Qed.

(** The items of a dataset whose frames all have one length always
    collate: for indices, at least one, that [__getitem__] accepts, the
    batch of the items is turned into two tensors with one row per index
    and one column per component of a frame; the rows of the second are
    the frames at the indices, converted to [torch.float], and without
    noise the two tensors are equal and no random number is drawn. *)
Theorem motion_items_collate ds d idx g batch g' :
  (forall v, In v (data ds) -> List.length v = d) ->
  idx <> [] ->
  motion_items ds idx g = Ok (batch, g') ->
  motion_collate_fn ds batch =
    Ok (mkTensor2 (List.length idx) d
          (map (fun ex => map to_float32 (fst ex)) batch),
        mkTensor2 (List.length idx) d
          (map (fun ex => map to_float32 (snd ex)) batch)) /\
  Forall2 (fun i ex => getitem (data ds) i = Ok (snd ex)) idx batch /\
  (add_noise ds = false -> map fst batch = map snd batch /\ g' = g).
Proof.
  intros Hd Hidx H.
  destruct (motion_items_shape _ _ _ _ _ _ Hd H) as (Hl & Hall & Hf2 & Hc).
  split; [|split; assumption].
  rewrite motion_collate_eval.
  destruct batch as [|[x0 y0] rest];
    [destruct idx; [congruence | discriminate]|].
  unfold motion_collated. set (batch := (x0, y0) :: rest) in *.
  destruct (Hall (x0, y0) (or_introl eq_refl)) as (Hx0 & Hy0).
  cbn [fst snd] in Hx0, Hy0. rewrite Hx0, Hy0, Hl.
  assert (forallb (fun ex => fits_row d (fst ex)) batch
          && forallb (fun ex => fits_row d (snd ex)) batch = true) as E.
  { apply andb_true_iff. split; apply forallb_forall; intros ex Hex;
      unfold fits_row; destruct (Hall ex Hex) as (H1 & H2);
      rewrite ?H1, ?H2; apply broadcastable_refl. }
  rewrite E. f_equal. f_equal; f_equal; apply map_ext_in; intros ex Hex;
    unfold stored_row; apply expand_same; rewrite length_map;
    apply (Hall ex Hex).
Qed.

End Items.

(** *** Loading a [SpeechMotionDataset]

    An array of three dimensions is the list of its slices along the
    first one, with the shape they share; an array of two, the list of
    its rows with their width.  A loaded [.npz] file holds the arrays
    stored under the keys ['X'] and ['Y'], if there are any. *)
Record array3 : Type := mkArray3 {
  a3_shape : nat * nat;
  a3_items : list matrix
}.

Record array2 : Type := mkArray2 {
  a2_width : nat;
  a2_rows : list vec
}.

Record npz : Type := mkNpz {
  npz_X : option array3;
  npz_Y : option array2
}.

Inductive load_error : Type :=
| FileNotFoundError (path : string)
| KeyError (key : string)
| ConcatenateError            (* the [ValueError] of [np.concatenate] *)
| AssertionError.

Inductive loaded (A : Type) : Type :=
| Loaded (a : A)
| Failed (e : load_error).

Arguments Loaded {A} a.
Arguments Failed {A} e.

(** The file system as [np.load] sees it. *)
Variable np_load : string -> option npz.

Definition shape_eqb (s1 s2 : nat * nat) : bool :=
  (fst s1 =? fst s2)%nat && (snd s1 =? snd s2)%nat.

(** [np.concatenate(arrays, axis=0)]: it needs at least one array, and
    arrays that agree on every dimension but the first. *)
Definition np_concatenate3 (arrays : list array3) : loaded array3 :=
  match arrays with
  | [] => Failed ConcatenateError
  | a :: _ =>
      if forallb (fun b => shape_eqb (a3_shape b) (a3_shape a)) arrays then
        Loaded (mkArray3 (a3_shape a) (List.concat (map a3_items arrays)))
      else Failed ConcatenateError
  end.

Definition np_concatenate2 (arrays : list array2) : loaded array2 :=
  match arrays with
  | [] => Failed ConcatenateError
  | a :: _ =>
      if forallb (fun b => (a2_width b =? a2_width a)%nat) arrays then
        Loaded (mkArray2 (a2_width a) (List.concat (map a2_rows arrays)))
      else Failed ConcatenateError
  end.

(** The loop of [__init__]: the arrays of the files, in order. *)
Fixpoint load_files (data_files : list string)
  : loaded (list array3 * list array2) :=
  match data_files with
  | [] => Loaded ([], [])
  | data_file :: rest =>
      match np_load data_file with
      | None => Failed (FileNotFoundError data_file)
      | Some data =>
          match npz_X data with
          | None => Failed (KeyError "X")
          | Some x =>
              match npz_Y data with
              | None => Failed (KeyError "Y")
              | Some y =>
                  match load_files rest with
                  | Failed e => Failed e
                  | Loaded (xs, ys) => Loaded (x :: xs, y :: ys)
                  end
              end
          end
      end
  end.

(** [SpeechMotionDataset.__init__] *)
Definition speech_init (data_files : list string) (d : device)
  : loaded SpeechMotionDataset :=
  match load_files data_files with
  | Failed e => Failed e
  | Loaded (xs, ys) =>
      match np_concatenate3 xs with
      | Failed e => Failed e
      | Loaded x =>
          match np_concatenate2 ys with
          | Failed e => Failed e
          | Loaded y =>
              if len (a3_items x) =? len (a2_rows y) then
                Loaded (mkSpeechMotionDataset (a3_items x) (a2_rows y) d)
              else Failed AssertionError
          end
      end
  end.

(** The arrays of the files are arrays: every slice has the shape of its
    array and every row its width. *)
Definition array3_ok (a : array3) : Prop :=
  forall v, In v (a3_items a) ->
    well_formed v /\ nrows v = fst (a3_shape a) /\ ncols v = snd (a3_shape a).

Definition array2_ok (a : array2) : Prop :=
  forall v, In v (a2_rows a) -> List.length v = a2_width a.

Definition files_ok (data_files : list string) : Prop :=
  forall f data, In f data_files -> np_load f = Some data ->
    (forall x, npz_X data = Some x -> array3_ok x) /\
    (forall y, npz_Y data = Some y -> array2_ok y).

Lemma load_files_ok data_files : forall xs ys,
  files_ok data_files ->
  load_files data_files = Loaded (xs, ys) ->
  Forall array3_ok xs /\ Forall array2_ok ys /\
  List.length xs = List.length data_files /\
  List.length ys = List.length data_files.
Proof.
  induction data_files as [|f rest IH]; intros xs ys Hok H.
  - simpl in H. inversion H. repeat split; constructor.
  - cbn [load_files] in H.
    destruct (np_load f) as [data|] eqn:Ef; [|discriminate].
    destruct (npz_X data) as [x|] eqn:Ex; [|discriminate].
    destruct (npz_Y data) as [y|] eqn:Ey; [|discriminate].
    destruct (load_files rest) as [[xs' ys']|e] eqn:Er; [|discriminate].
    inversion H; subst. clear H.
    destruct (IH xs' ys') as (H1 & H2 & H3 & H4); [|reflexivity|].
    { intros f' data' Hf'. apply Hok. right. exact Hf'. }
    destruct (Hok f data (or_introl eq_refl) Ef) as (Hx & Hy).
    split; [constructor; auto|]. split; [constructor; auto|].
    simpl. split; lia.
Qed.

Lemma concatenate3_ok xs x :
  Forall array3_ok xs -> np_concatenate3 xs = Loaded x -> array3_ok x.
Proof.
  intros Hok H. unfold np_concatenate3 in H.
  destruct xs as [|a rest]; [discriminate|].
  remember (a :: rest) as arrays eqn:Earrays in *. clear Earrays.
  destruct (forallb _ _) eqn:E; [|discriminate].
  inversion H; subst. clear H. intros v Hv. cbn [a3_items a3_shape] in *.
  apply in_concat in Hv. destruct Hv as (l & Hl & Hv).
  apply in_map_iff in Hl. destruct Hl as (b & <- & Hb).
  rewrite Forall_forall in Hok. destruct (Hok b Hb v Hv) as (Hw & Hr & Hc).
  rewrite forallb_forall in E. specialize (E b Hb). unfold shape_eqb in E.
  apply andb_true_iff in E. destruct E as (E1 & E2).
  apply Nat.eqb_eq in E1. apply Nat.eqb_eq in E2.
  split; [exact Hw|]. split; congruence.
Qed.

Lemma concatenate2_ok ys y :
  Forall array2_ok ys -> np_concatenate2 ys = Loaded y -> array2_ok y.
Proof.
  intros Hok H. unfold np_concatenate2 in H.
  destruct ys as [|a rest]; [discriminate|].
  remember (a :: rest) as arrays eqn:Earrays in *. clear Earrays.
  destruct (forallb _ _) eqn:E; [|discriminate].
  inversion H; subst. clear H. intros v Hv. cbn [a2_rows a2_width] in *.
  apply in_concat in Hv. destruct Hv as (l & Hl & Hv).
  apply in_map_iff in Hl. destruct Hl as (b & <- & Hb).
  rewrite Forall_forall in Hok. pose proof (Hok b Hb v Hv) as Hw.
  rewrite forallb_forall in E. specialize (E b Hb).
  apply Nat.eqb_eq in E. congruence.
Qed.

(** A file that [np.load] opens and that holds both keys. *)
Definition complete_file (f : string) : Prop :=
  exists data x y,
    np_load f = Some data /\ npz_X data = Some x /\ npz_Y data = Some y.

Lemma load_files_failed_after good : forall bad e,
  (forall f, In f good -> complete_file f) ->
  load_files bad = Failed e ->
  load_files (good ++ bad) = Failed e.
Proof.
  induction good as [|f good IH]; intros bad e Hgood Hbad; [exact Hbad|].
  destruct (Hgood f (or_introl eq_refl)) as (data & x & y & Hf & Hx & Hy).
  cbn [app load_files]. rewrite Hf, Hx, Hy.
  rewrite (IH bad e); [reflexivity | | exact Hbad].
  intros f' Hf'. apply Hgood. right. exact Hf'.
Qed.

(** [__init__] raises on an empty list of files ([np.concatenate] needs
    an array), and on the first file of the list that is missing or
    lacks the key ['X'] or ['Y'], wherever it stands in the list and
    whatever the later files hold: [FileNotFoundError] with its path for
    a missing file, [KeyError] with ['X'] when ['X'] is absent, and with
    ['Y'] when only ['Y'] is. *)
Theorem speech_init_errors d :
  speech_init [] d = Failed ConcatenateError /\
  (forall good f rest,
     (forall f', In f' good -> complete_file f') ->
     (np_load f = None ->
      speech_init (good ++ f :: rest) d = Failed (FileNotFoundError f)) /\
     (forall data, np_load f = Some data -> npz_X data = None ->
        speech_init (good ++ f :: rest) d = Failed (KeyError "X")) /\
     (forall data x, np_load f = Some data -> npz_X data = Some x ->
        npz_Y data = None ->
        speech_init (good ++ f :: rest) d = Failed (KeyError "Y"))).
Proof.
  split; [reflexivity|]. intros good f rest Hgood.
  split; [|split].
  - intros H. unfold speech_init.
    rewrite (load_files_failed_after good (f :: rest) (FileNotFoundError f));
      [reflexivity | exact Hgood |].
    cbn [load_files]. rewrite H. reflexivity.
  - intros data H Hx. unfold speech_init.
    rewrite (load_files_failed_after good (f :: rest) (KeyError "X"));
      [reflexivity | exact Hgood |].
    cbn [load_files]. rewrite H, Hx. reflexivity.
  - intros data x H Hx Hy. unfold speech_init.
    rewrite (load_files_failed_after good (f :: rest) (KeyError "Y"));
      [reflexivity | exact Hgood |].
    cbn [load_files]. rewrite H, Hx, Hy. reflexivity.
Qed.

(** A dataset that [__init__] returns has as many inputs as outputs, so
    [__getitem__] returns a pair for every index in range; and when the
    arrays of the files are well formed its inputs all have one shape and
    its outputs one length, so every batch of its items, at least one,
    collates into tensors of that shape. *)
Theorem speech_init_dataset data_files d ds :
  speech_init data_files d = Loaded ds ->
  len (X ds) = len (Y ds) /\
  (forall item, - speech_len ds <= item < speech_len ds ->
     exists x y, speech_getitem ds item = Ok (x, y)) /\
  (files_ok data_files ->
   exists r c w,
     forall batch,
       batch <> [] ->
       (forall ex, In ex batch -> In (fst ex) (X ds) /\ In (snd ex) (Y ds)) ->
       speech_collate_fn ds batch =
       Ok (mkTensor3 (List.length batch) r c
             (map (fun ex => convert (fst ex)) batch),
           mkTensor2 (List.length batch) w
             (map (fun ex => map to_float32 (snd ex)) batch))).
Proof.
  intros H. unfold speech_init in H.
  destruct (load_files data_files) as [[xs ys]|e] eqn:El; [|discriminate].
  destruct (np_concatenate3 xs) as [x|e] eqn:Ex; [|discriminate].
  destruct (np_concatenate2 ys) as [y|e] eqn:Ey; [|discriminate].
  destruct (Z.eqb_spec (len (a3_items x)) (len (a2_rows y))) as [E|E];
    [|discriminate].
  inversion H; subst ds. clear H. cbn [X Y].
  split; [exact E|]. split.
  - intros item Hitem. unfold speech_len, speech_getitem in *. cbn [X Y] in *.
    destruct (getitem_valid (a3_items x) item Hitem) as (vx & Hvx & _).
    rewrite E in Hitem.
    destruct (getitem_valid (a2_rows y) item Hitem) as (vy & Hvy & _).
    exists vx, vy. rewrite Hvx, Hvy. reflexivity.
  - intros Hok.
    destruct (load_files_ok _ _ _ Hok El) as (Hxs & Hys & _).
    pose proof (concatenate3_ok _ _ Hxs Ex) as Hx3.
    pose proof (concatenate2_ok _ _ Hys Ey) as Hy2.
    exists (fst (a3_shape x)), (snd (a3_shape x)), (a2_width y).
    intros batch Hne Hin. rewrite speech_collate_eval.
    destruct batch as [|[x0 y0] rest]; [congruence|].
    unfold speech_collated. set (batch := (x0, y0) :: rest) in *.
    destruct (Hin (x0, y0) (or_introl eq_refl)) as (Hx0 & Hy0).
    cbn [fst snd] in Hx0, Hy0.
    destruct (Hx3 x0 Hx0) as (_ & Hr0 & Hc0). rewrite (Hy2 y0 Hy0), Hr0, Hc0.
    assert (forallb (fun ex => fits_slice (fst (a3_shape x)) (snd (a3_shape x))
                                 (fst ex)) batch
            && forallb (fun ex => fits_row (a2_width y) (snd ex)) batch
            = true) as Ef.
    { apply andb_true_iff. split; apply forallb_forall; intros ex Hex;
        destruct (Hin ex Hex) as (H1 & H2).
      - destruct (Hx3 _ H1) as (_ & Hr & Hc). unfold fits_slice.
        rewrite Hr, Hc, !broadcastable_refl. reflexivity.
      - unfold fits_row. rewrite (Hy2 _ H2). apply broadcastable_refl. }
    rewrite Ef. f_equal. f_equal; f_equal; apply map_ext_in; intros ex Hex;
      destruct (Hin ex Hex) as (H1 & H2).
    + destruct (Hx3 _ H1) as ((Hw1 & Hw2) & Hr & Hc).
      unfold stored_slice, convert.
      rewrite expand_same.
      * apply map_ext_in. intros row Hrow. apply expand_same.
        rewrite length_map, (Hw2 row Hrow). exact Hc.
      * rewrite length_map, Hw1. exact Hr.
    + unfold stored_row. apply expand_same. rewrite length_map.
      apply (Hy2 _ H2).
Qed.

End WithDevice.

End Collate.

Arguments Loaded {A} a.
Arguments Failed {A} e.

(** What [collate_fn] returns is a function of the batch alone: every
    element that [torch.empty] left uninitialised is overwritten or the
    call raises, and nothing of the dataset but its device is used. *)
Theorem collate_depends_on_batch_only (g1 g2 : float32) (device : Type)
  (m1 m2 : MotionDataset device) (s1 s2 : SpeechMotionDataset device)
  (mb : list (vec * vec)) (sb : list (matrix * vec)) :
  motion_collate_fn g1 device m1 mb = motion_collate_fn g2 device m2 mb /\
  speech_collate_fn g1 device s1 sb = speech_collate_fn g2 device s2 sb.
Proof.
  rewrite !motion_collate_eval, !speech_collate_eval. split; reflexivity.
Qed.

(** *** Small instances *)

Definition f1 : float := of_int 1.
Definition f2 : float := of_int 2.
Definition f3 : float := of_int 3.

(** A sampler that returns the scale, or a half, [size] times. *)
Definition constant_normal (loc : float) (scale : npval) (size : Z) (g : nat)
  : result (vec * nat) :=
  if size <? 0 then Raise ValueError
  else Ok (repeat (match scale with Scalar s => s | Array _ => lit 1 2 end)
                  (Z.to_nat size), S g).

Lemma constant_normal_size loc scale n g0 r :
  constant_normal loc scale n g0 = Ok r -> len (fst r) = n.
Proof.
  unfold constant_normal. destruct (Z.ltb_spec n 0); [discriminate|].
  intros H'. inversion H'; subst. unfold len. cbn [fst].
  rewrite repeat_length. lia.
Qed.

Example to_float32_tenth :
  to_float32 (lit 1 10) = S754_finite false 13421773 (-27).
Proof. vm_compute. reflexivity. Qed.

(** The last frame of a dataset of two without noise, and the first
    one with noise: every element is the element of the frame plus its
    sample. *)
Lemma motion_getitem_pairs_witness :
  (exists x,
     getitem [[f1; f2]; [f2; f3]] (-1) = Ok x /\
     x = [f2; f3] /\
     motion_getitem unit nat constant_normal
       (motion_init unit [[f1; f2]; [f2; f3]] tt (Scalar f1) f1 false)
       (-1) 0%nat
     = Ok ((x, x), 0%nat)) /\
  (exists a,
     motion_getitem unit nat constant_normal
       (motion_init unit [[f1; f2]; [f2; f3]] tt (Scalar f1) f1 true) 0 0%nat
     = Ok ((a, [f1; f2]), 1%nat) /\
     nth_error a 0 = Some (add f1 (add (mul f1 f1) (lit 1 (10 ^ 15)))) /\
     nth_error a 1 = Some (add f2 (add (mul f1 f1) (lit 1 (10 ^ 15))))).
Proof.
  split.
  - assert (- len [[f1; f2]; [f2; f3]] <= -1 < len [[f1; f2]; [f2; f3]]) as H1
        by (vm_compute; split; [discriminate | reflexivity]).
    destruct (motion_getitem_pairs unit nat constant_normal
                [[f1; f2]; [f2; f3]] tt (Scalar f1) f1 false (-1) 0%nat
                H1 constant_normal_size)
      as (x & scale & Hx & Hn & _ & _ & Hclean & _).
    exists x. split; [exact Hx|]. split.
    + vm_compute in Hn. inversion Hn. reflexivity.
    + apply Hclean. reflexivity.
  - assert (- len [[f1; f2]; [f2; f3]] <= 0 < len [[f1; f2]; [f2; f3]]) as H0
        by (vm_compute; split; [discriminate | reflexivity]).
    destruct (motion_getitem_pairs unit nat constant_normal
                [[f1; f2]; [f2; f3]] tt (Scalar f1) f1 true 0 0%nat
                H0 constant_normal_size)
      as (x & scale & Hx & _ & Hscale & _ & _ & Hnoisy).
    assert (x = [f1; f2]) as -> by (vm_compute in Hx; inversion Hx; reflexivity).
    rewrite (Hscale f1 eq_refl) in Hnoisy. specialize (Hnoisy eq_refl).
    set (c := add (mul f1 f1) (lit 1 (10 ^ 15))) in *.
    change (constant_normal (of_int 0) (Scalar c) (len [f1; f2]) 0%nat)
      with (Ok ([c; c], 1%nat) : result (vec * nat)) in Hnoisy.
    destruct Hnoisy as (a & Hget & _ & _ & Hk).
    exists a. split; [exact Hget|].
    split; apply Hk; reflexivity.
Defined.

Example motion_getitem_noisy :
  motion_getitem unit nat constant_normal
    (motion_init unit [[f1; f2]; [f2; f3]] tt (Scalar f1) f1 true) 0 0%nat
  = Ok (([add f1 (add (mul f1 f1) (lit 1 (10 ^ 15)));
          add f2 (add (mul f1 f1) (lit 1 (10 ^ 15)))], [f1; f2]), 1%nat).
Proof. vm_compute. reflexivity. Qed.

(** C6, as stated, fails on examples of different shapes: the row
    assignment of the second example raises. *)
Lemma collate_variable_shapes :
  motion_collate_fn f1 unit
    (motion_init unit [] tt (Scalar f1) default_variance true)
    [([f1; f2], [f1; f2]); ([f1; f2; f3], [f1; f2; f3])]
  = Raise RuntimeError /\
  speech_collate_fn f1 unit (mkSpeechMotionDataset unit [] [] tt)
    [(mkMatrix 1 2 [[f1; f2]], [f1]); (mkMatrix 1 3 [[f1; f2; f3]], [f1])]
  = Raise RuntimeError.
Proof. split; vm_compute; reflexivity. Qed.

Lemma collate_uniform_batches_witness :
  motion_collate_fn f1 unit
    (motion_init unit [] tt (Scalar f1) default_variance true)
    [([f1; f2], [f1; f2]); ([f2; f3], [f2; f3])]
  = Ok (mkTensor2 2 2 (map (map to_float32) [[f1; f2]; [f2; f3]]),
        mkTensor2 2 2 (map (map to_float32) [[f1; f2]; [f2; f3]])).
Proof.
  destruct (collate_uniform_batches f1 unit) as [Hm _].
  rewrite (Hm _ _ [f1; f2] [f1; f2] [([f2; f3], [f2; f3])] eq_refl).
  - vm_compute. reflexivity.
  - intros ex [<-|[<-|[]]]; split; reflexivity.
Defined.

(** The first and the last frame of a dataset of two, collated. *)
Lemma motion_items_collate_witness :
  motion_collate_fn f1 unit
    (motion_init unit [[f1; f2]; [f2; f3]] tt (Scalar f1) f1 false)
    [([f1; f2], [f1; f2]); ([f2; f3], [f2; f3])]
  = Ok (mkTensor2 2 2 (map (map to_float32) [[f1; f2]; [f2; f3]]),
        mkTensor2 2 2 (map (map to_float32) [[f1; f2]; [f2; f3]])).
Proof.
  pose (ds := motion_init unit [[f1; f2]; [f2; f3]] tt (Scalar f1) f1 false).
  assert (forall v, In v (data unit ds) -> List.length v = 2%nat) as Hd
      by (intros v [<-|[<-|[]]]; reflexivity).
  assert ([0; -1] <> @nil Z) as Hidx by discriminate.
  assert (motion_items unit nat constant_normal ds [0; -1] 0%nat
          = Ok ([([f1; f2], [f1; f2]); ([f2; f3], [f2; f3])], 0%nat)) as Hitems
      by (vm_compute; reflexivity).
  destruct (motion_items_collate f1 unit nat constant_normal
              constant_normal_size ds 2 [0; -1] 0%nat _ 0%nat Hd Hidx Hitems)
    as [H _].
  exact H.
Defined.

(** With noise every item draws its samples: the states of the
    generator are threaded through the items. *)
Example motion_items_noisy :
  option_map snd
    (match motion_items unit nat constant_normal
             (motion_init unit [[f1; f2]; [f2; f3]] tt (Scalar f1) f1 true)
             [0; 1; 0] 0%nat with
     | Ok r => Some r
     | Raise _ => None
     end) = Some 3%nat /\
  motion_items unit nat constant_normal
    (motion_init unit [[f1; f2]; [f2; f3]] tt (Scalar f1) f1 true)
    [0; 2; 0] 0%nat = Raise IndexError.
Proof. split; vm_compute; reflexivity. Qed.

(** A directory of three files: a complete one, one without ['Y'] and
    one with two inputs for one output. *)
Definition toy_files (path : string) : option npz :=
  if String.eqb path "a.npz" then
    Some (mkNpz (Some (mkArray3 (1%nat, 2%nat)
                         [mkMatrix 1 2 [[f1; f2]]; mkMatrix 1 2 [[f2; f3]]]))
                (Some (mkArray2 1 [[f1]; [f2]])))
  else if String.eqb path "b.npz" then
    Some (mkNpz (Some (mkArray3 (1%nat, 2%nat) [mkMatrix 1 2 [[f3; f1]]]))
                None)
  else if String.eqb path "c.npz" then
    Some (mkNpz (Some (mkArray3 (1%nat, 2%nat)
                         [mkMatrix 1 2 [[f1; f1]]; mkMatrix 1 2 [[f2; f2]]]))
                (Some (mkArray2 1 [[f3]])))
  else if String.eqb path "d.npz" then
    Some (mkNpz (Some (mkArray3 (2%nat, 2%nat)
                         [mkMatrix 2 2 [[f1; f1]; [f2; f2]]]))
                (Some (mkArray2 1 [[f3]])))
  else None.

Example speech_init_failures :
  speech_init unit toy_files ["a.npz"; "b.npz"]%string tt = Failed (KeyError "Y") /\
  speech_init unit toy_files ["a.npz"; "e.npz"]%string tt
    = Failed (FileNotFoundError "e.npz") /\
  speech_init unit toy_files ["a.npz"; "c.npz"]%string tt = Failed AssertionError /\
  speech_init unit toy_files ["a.npz"; "d.npz"]%string tt = Failed ConcatenateError.
Proof. repeat split; vm_compute; reflexivity. Qed.

(** A file without ['Y'] and a missing file, each after a complete
    one. *)
Lemma speech_init_errors_witness :
  speech_init unit toy_files ["a.npz"; "b.npz"; "a.npz"]%string tt
    = Failed (KeyError "Y") /\
  speech_init unit toy_files ["a.npz"; "e.npz"; "b.npz"]%string tt
    = Failed (FileNotFoundError "e.npz").
Proof.
  assert (forall f, In f ["a.npz"%string] -> complete_file toy_files f) as Hgood.
  { intros f [<-|[]]. eexists. eexists. eexists.
    split; [vm_compute; reflexivity|]. split; reflexivity. }
  destruct (speech_init_errors unit toy_files tt) as (_ & H).
  split.
  - destruct (H ["a.npz"%string] "b.npz"%string ["a.npz"%string] Hgood)
      as (_ & _ & HY).
    eapply HY; [vm_compute; reflexivity | reflexivity | reflexivity].
  - destruct (H ["a.npz"%string] "e.npz"%string ["b.npz"%string] Hgood)
      as (HF & _).
    apply HF. vm_compute. reflexivity.
Defined.

Lemma speech_init_dataset_witness :
  exists ds,
    speech_init unit toy_files ["a.npz"; "a.npz"]%string tt = Loaded ds /\
    len (X unit ds) = 4 /\ len (Y unit ds) = 4 /\
    exists x y, speech_getitem unit ds (-4) = Ok (x, y).
Proof.
  pose (ds := mkSpeechMotionDataset unit
                [mkMatrix 1 2 [[f1; f2]]; mkMatrix 1 2 [[f2; f3]];
                 mkMatrix 1 2 [[f1; f2]]; mkMatrix 1 2 [[f2; f3]]]
                [[f1]; [f2]; [f1]; [f2]] tt).
  assert (speech_init unit toy_files ["a.npz"; "a.npz"]%string tt = Loaded ds) as Hl
      by (vm_compute; reflexivity).
  destruct (speech_init_dataset f1 unit toy_files ["a.npz"; "a.npz"]%string tt ds Hl)
    as (Hlen & Hget & _).
  exists ds. split; [exact Hl|]. split; [reflexivity|].
  split; [rewrite <- Hlen; reflexivity|].
  apply Hget. vm_compute. split; [discriminate | reflexivity].
Defined.

End Datasets.

(** ** [Seq2Seq/system.py] *)

Module Seq2Seq.

Import PyFloat.

(** A [torch.float] label tensor with its shape; its elements are
    binary32 values. *)
Record labels : Type := mkLabels {
  lshape : list nat;
  ldata : list spec_float
}.

Definition one32 : spec_float := binary_normalize 24 128 1 0 false.
Definition zero32 : spec_float := S754_zero false.

(** [torch.ones((n, 1))] and [torch.zeros((n, 1))] *)
Definition torch_ones (n : nat) : labels := mkLabels [n; 1%nat] (repeat one32 n).
Definition torch_zeros (n : nat) : labels := mkLabels [n; 1%nat] (repeat zero32 n).

(** [1 - t], element by element *)
Definition rsub_one (t : labels) : labels :=
  mkLabels (lshape t) (map (fun x => SFsub 24 128 one32 x) (ldata t)).

(** [torch.optim.Adam(params, lr=..., betas=...)]; [betas] is [None]
    when the call leaves it to the default of the framework. *)
Record Adam (param : Type) : Type := mkAdam {
  params : list param;
  lr : float;
  betas : option (float * float)
}.

Arguments mkAdam {param}.
Arguments params {param}.
Arguments lr {param}.
Arguments betas {param}.

(** The [Namespace] of hyper-parameters. *)
Record Namespace : Type := mkNamespace {
  prev_poses : Z;
  pred_poses : Z;
  hp_lr : float;
  beta1 : float;
  beta2 : float;
  w_cont_loss : float;
  w_adv_loss : float
}.

Section Systems.

(** The framework and the networks of [model.py].  A pose tensor is the
    list of its slices along dimension 0; [scalar] is a tensor of
    dimension 0, [scores] what the discriminator returns. *)
Variables audio row scalar scores param enc_out hidden : Type.

Definition poses : Type := list row.

Variable row_sub : row -> row -> row.
Variable encoder : audio -> enc_out * hidden.
Variable decoder : enc_out -> hidden -> poses -> poses.
Variable discriminator : poses -> scores.
Variables encoder_parameters decoder_parameters discriminator_parameters
  : list param.
Variable MSELoss : poses -> poses -> scalar.
Variable torch_norm : poses -> scalar.
Variable t_add : scalar -> scalar -> scalar.   (* tensor + tensor *)
Variable t_mul : scalar -> float -> scalar.
                      (* tensor * number and number * tensor *)
Variable t_div : scalar -> Z -> scalar.        (* tensor / integer *)
Variable binary_cross_entropy_with_logits : scores -> labels -> scalar.
Variable sigmoid_mean : scores -> scalar.      (* F.sigmoid(s).mean() *)
Variable detach : poses -> poses.

Definition size0 (p : poses) : Z := Z.of_nat (List.length p).

(** [a - b] for two tensors of one shape *)
Definition tensor_sub (a b : poses) : poses :=
  map (fun ab => row_sub (fst ab) (snd ab)) (combine a b).

(** [p[1:]] and [p[:-1]] *)
Definition from_1 (p : poses) : poses := tl p.
Definition upto_last (p : poses) : poses := removelast p.

Definition forward (x : audio) (p : poses) : poses :=
  let '(output, hidden) := encoder x in
  decoder output hidden p.

(** *** [Seq2SeqSystem] *)

Record Seq2SeqSystem : Type := mkSeq2SeqSystem {
  s_predicted_poses : Z;
  s_previous_poses : Z;
  s_train_folder : string;
  s_test_folder : string
}.

Definition seq2seq_init (train_folder test_folder : string)
  (predicted_poses previous_poses : Z) : Seq2SeqSystem :=
  mkSeq2SeqSystem predicted_poses previous_poses train_folder test_folder.

Definition seq2seq_calculate_loss (self : Seq2SeqSystem) (p y : poses) : scalar :=
  let mse_loss := MSELoss p y in
  let cont_loss :=
    t_div (torch_norm (tensor_sub (from_1 p) (upto_last p))) (size0 p - 1) in
  let loss := t_add mse_loss (t_mul cont_loss (lit 1 100)) in
  loss.

Definition seq2seq_training_step (self : Seq2SeqSystem)
  (batch : audio * poses * poses) (batch_nb : Z) : list (string * scalar) :=
  let '(x, y, p) := batch in
  let pred := forward x p in
  let loss := seq2seq_calculate_loss self pred y in
  [("loss"%string, loss)].

Definition seq2seq_configure_optimizers (self : Seq2SeqSystem) : Adam param :=
  mkAdam (encoder_parameters ++ decoder_parameters) (lit 1 1000) None.

(** *** [AdversarialSeq2SeqSystem] *)

Record AdversarialSeq2SeqSystem : Type := mkAdversarialSeq2SeqSystem {
  hparams : Namespace;
  predicted_poses : Z;
  previous_poses : Z;
  train_folder : string;
  test_folder : string
}.

Definition adversarial_init (train_folder test_folder : string)
  (predicted_poses previous_poses : Z) : AdversarialSeq2SeqSystem :=
  mkAdversarialSeq2SeqSystem
    (mkNamespace previous_poses predicted_poses
                 (lit 1 1000) (lit 1 2) (lit 9 10) (lit 1 100) (lit 1 100))
    predicted_poses previous_poses train_folder test_folder.

Definition calculate_loss (self : AdversarialSeq2SeqSystem) (p y : poses)
  : scalar :=
  let base_loss := MSELoss p y in
  let cont_loss :=
    t_div (torch_norm (tensor_sub (from_1 p) (upto_last p))) (size0 p - 1) in
  let loss := t_add base_loss (t_mul cont_loss (w_cont_loss (hparams self))) in
  loss.

(** What [training_step] returns: the loss and the two dictionaries, in
    the order of their keys. *)
Record step_output : Type := mkStepOutput {
  out_loss : scalar;
  progress_bar : list (string * scalar);
  log : list (string * scalar)
}.

(** The branch [optimizer_idx == 0] of [training_step]. *)
Definition generator_step (self : AdversarialSeq2SeqSystem)
  (pred real : poses) : step_output :=
  let base_loss := MSELoss pred real in
  let cont_loss :=
    t_div (torch_norm (tensor_sub (from_1 pred) (upto_last pred)))
          (size0 pred - 1) in
  let is_real := torch_ones (List.length pred) in
  let adv_loss := binary_cross_entropy_with_logits (discriminator pred) is_real in
  let loss :=
    t_add (t_add base_loss (t_mul cont_loss (w_cont_loss (hparams self))))
          (t_mul adv_loss (w_adv_loss (hparams self))) in
  let d_fake_score := sigmoid_mean (discriminator pred) in
  let logs :=
    [("loss", loss); ("g_adv_loss", adv_loss); ("base_loss", base_loss);
     ("cont_loss", cont_loss); ("d_fake_score", d_fake_score)]%string in
  mkStepOutput loss
    [("total_loss", loss); ("d_fake_score", d_fake_score)]%string logs.

(** The branch [optimizer_idx == 1]. *)
Definition discriminator_step (self : AdversarialSeq2SeqSystem)
  (pred real : poses) : step_output :=
  let d_real_scores := discriminator real in
  let d_fake_scores := discriminator (detach pred) in
  let is_real := torch_ones (List.length pred) in
  let real_loss := binary_cross_entropy_with_logits d_real_scores is_real in
  let fake_loss :=
    binary_cross_entropy_with_logits d_fake_scores (rsub_one is_real) in
  let d_loss := t_div (t_add real_loss fake_loss) 2 in
  let d_fake_score := sigmoid_mean d_fake_scores in
  let d_real_score := sigmoid_mean d_real_scores in
  let logs :=
    [("loss", d_loss); ("d_real_loss", real_loss); ("d_fake_loss", fake_loss);
     ("d_fake_score", d_fake_score); ("d_real_score", d_real_score)]%string in
  mkStepOutput d_loss
    [("d_loss", d_loss); ("d_fake_score", d_fake_score);
     ("d_real_score", d_real_score)]%string logs.

(** [training_step]; it returns [None] for any other index. *)
Definition training_step (self : AdversarialSeq2SeqSystem)
  (batch : audio * poses * poses) (batch_nb optimizer_idx : Z)
  : option step_output :=
  let '(audio_features, real_poses, prev) := batch in
  let pred := forward audio_features prev in
  let loss := calculate_loss self pred real_poses in
  if optimizer_idx =? 0 then Some (generator_step self pred real_poses)
  else if optimizer_idx =? 1 then Some (discriminator_step self pred real_poses)
  else None.

Definition validation_step (self : AdversarialSeq2SeqSystem)
  (batch : audio * poses * poses) (batch_nb : Z) : list (string * scalar) :=
  let '(x, y, p) := batch in
  let pred := forward x p in
  let loss := calculate_loss self pred y in
  [("loss"%string, loss)].

(** [configure_optimizers]: the optimizers and the (empty) list of
    schedulers. *)
Definition configure_optimizers (self : AdversarialSeq2SeqSystem)
  : list (Adam param) * list unit :=
  let lr := hp_lr (hparams self) in
  let b1 := beta1 (hparams self) in
  let b2 := beta2 (hparams self) in
  let opt_g :=
    mkAdam (encoder_parameters ++ decoder_parameters) lr (Some (b1, b2)) in
  let opt_d := mkAdam discriminator_parameters lr (Some (b1, b2)) in
  ([opt_g; opt_d], []).

(** *** The continuity term *)

(** The differences of consecutive rows: [p[i+1] - p[i]]. *)
Fixpoint consecutive_differences (p : poses) : poses :=
  match p with
  | [] => []
  | a :: rest =>
      match rest with
      | [] => []
      | b :: _ => row_sub b a :: consecutive_differences rest
      end
  end.

Lemma slices_difference p :
  tensor_sub (from_1 p) (upto_last p) = consecutive_differences p.
Proof.
  unfold tensor_sub, from_1, upto_last.
  induction p as [|a rest IH]; [reflexivity|].
  destruct rest as [|b rest]; [reflexivity|].
  change (removelast (a :: b :: rest)) with (a :: removelast (b :: rest)).
  cbn [tl combine map fst snd consecutive_differences].
  f_equal. exact IH.
Qed.

Lemma consecutive_differences_length p :
  List.length (consecutive_differences p) = (List.length p - 1)%nat.
Proof.
  induction p as [|a rest IH]; [reflexivity|].
  destruct rest as [|b rest]; [reflexivity|].
  cbn [consecutive_differences List.length] in *. lia.
Qed.

Lemma consecutive_differences_nth p : forall i a b,
  nth_error p i = Some a -> nth_error p (S i) = Some b ->
  nth_error (consecutive_differences p) i = Some (row_sub b a).
Proof.
  induction p as [|c rest IH]; intros i a b Ha Hb; [destruct i; discriminate|].
  destruct rest as [|d rest]; [destruct i; discriminate|].
  destruct i as [|i].
  - simpl in Ha, Hb. inversion Ha; inversion Hb; subst. reflexivity.
  - cbn [consecutive_differences nth_error]. apply IH; assumption.
Qed.

Lemma rsub_one_ones n : rsub_one (torch_ones n) = torch_zeros n.
Proof.
  unfold rsub_one, torch_ones, torch_zeros. cbn [lshape ldata]. f_equal.
  rewrite map_repeat. reflexivity.
Qed.

(** C3: for both systems [calculate_loss(p, y)] is [MSELoss(p, y)] plus
    0.01 times the norm of the consecutive-row differences divided by
    [p.size(0) - 1]; the differences are the rows [p[i+1] - p[i]], one
    less than the rows of [p]. *)
Theorem calculate_loss_composition s tf1 tf2 pp qp p y :
  let continuity :=
    t_div (torch_norm (consecutive_differences p)) (size0 p - 1) in
  seq2seq_calculate_loss s p y =
    t_add (MSELoss p y) (t_mul continuity (lit 1 100)) /\
  calculate_loss (adversarial_init tf1 tf2 pp qp) p y =
    t_add (MSELoss p y) (t_mul continuity (lit 1 100)) /\
  Z.of_nat (List.length (consecutive_differences p)) = Z.max 0 (size0 p - 1) /\
  forall i, (S i < List.length p)%nat ->
    exists a b,
      nth_error p i = Some a /\ nth_error p (S i) = Some b /\
      nth_error (consecutive_differences p) i = Some (row_sub b a).
Proof.
  intros continuity. unfold seq2seq_calculate_loss, calculate_loss.
  cbn [adversarial_init hparams w_cont_loss]. rewrite slices_difference.
  split; [reflexivity|]. split; [reflexivity|]. split.
  - rewrite consecutive_differences_length. unfold size0. lia.
  - intros i Hi.
    destruct (nth_error p i) as [a|] eqn:Ea;
      [|apply nth_error_None in Ea; lia].
    destruct (nth_error p (S i)) as [b|] eqn:Eb;
      [|apply nth_error_None in Eb; lia].
    exists a, b. split; [reflexivity|]. split; [reflexivity|].
    apply consecutive_differences_nth; assumption.
Qed.

(** C9: the continuity term of [calculate_loss] divides by
    [p.size(0) - 1]; this divisor is zero exactly when [p] has one row,
    where the loss is computed from a division by 0 of the norm of an
    empty tensor, and it is positive as soon as [p] has two rows. *)
Theorem continuity_divisor s tf1 tf2 pp qp p y :
  (size0 p - 1 = 0 <-> size0 p = 1) /\
  (size0 p = 1 ->
   seq2seq_calculate_loss s p y =
     t_add (MSELoss p y) (t_mul (t_div (torch_norm []) 0) (lit 1 100)) /\
   calculate_loss (adversarial_init tf1 tf2 pp qp) p y =
     t_add (MSELoss p y) (t_mul (t_div (torch_norm []) 0) (lit 1 100))) /\
  (2 <= size0 p ->
   exists d,
     d = size0 p - 1 /\ 0 < d /\
     seq2seq_calculate_loss s p y =
       t_add (MSELoss p y)
             (t_mul (t_div (torch_norm (consecutive_differences p)) d)
                    (lit 1 100)) /\
     calculate_loss (adversarial_init tf1 tf2 pp qp) p y =
       t_add (MSELoss p y)
             (t_mul (t_div (torch_norm (consecutive_differences p)) d)
                    (lit 1 100))).
Proof.
  split; [lia|]. split.
  - intros H. unfold seq2seq_calculate_loss, calculate_loss.
    cbn [adversarial_init hparams w_cont_loss]. rewrite slices_difference, H.
    destruct p as [|a [|b rest]]; unfold size0 in H; simpl in H; try lia.
    split; reflexivity.
  - intros H. exists (size0 p - 1). split; [reflexivity|]. split; [lia|].
    unfold seq2seq_calculate_loss, calculate_loss.
    cbn [adversarial_init hparams w_cont_loss]. rewrite slices_difference.
    split; reflexivity.
Qed.

(** C4: [configure_optimizers] returns two Adam optimizers with
    learning rate 1e-3 and betas (0.5, 0.9), the first over the
    parameters of the encoder followed by those of the decoder, the
    second over those of the discriminator; [training_step] returns the
    result of the generator step for [optimizer_idx] 0 and that of the
    discriminator step for [optimizer_idx] 1. *)
Theorem two_optimizers tf1 tf2 pp qp audio_features real_poses prev batch_nb :
  let self := adversarial_init tf1 tf2 pp qp in
  let pred := forward audio_features prev in
  configure_optimizers self =
    ([mkAdam (encoder_parameters ++ decoder_parameters) (lit 1 1000)
             (Some (lit 1 2, lit 9 10));
      mkAdam discriminator_parameters (lit 1 1000)
             (Some (lit 1 2, lit 9 10))], []) /\
  training_step self (audio_features, real_poses, prev) batch_nb 0 =
    Some (generator_step self pred real_poses) /\
  training_step self (audio_features, real_poses, prev) batch_nb 1 =
    Some (discriminator_step self pred real_poses) /\
  map fst (log (generator_step self pred real_poses)) =
    ["loss"; "g_adv_loss"; "base_loss"; "cont_loss"; "d_fake_score"]%string /\
  map fst (log (discriminator_step self pred real_poses)) =
    ["loss"; "d_real_loss"; "d_fake_loss"; "d_fake_score";
     "d_real_score"]%string.
Proof. intros self pred. repeat split. Qed.

(** C5: the loss of the generator step is the MSE of the predicted and
    the real poses, plus 0.01 times the continuity term, plus 0.01 times
    the cross-entropy of the discriminator's scores of the predicted
    poses against ones of shape [(pred_poses.size(0), 1)]; the loss of
    the discriminator step is half the sum of the cross-entropy of the
    scores of the real poses against ones and that of the scores of the
    detached predicted poses against zeros. *)
Theorem adversarial_losses tf1 tf2 pp qp audio_features real_poses prev batch_nb :
  let self := adversarial_init tf1 tf2 pp qp in
  let pred := forward audio_features prev in
  let n := List.length pred in
  let continuity :=
    t_div (torch_norm (consecutive_differences pred)) (size0 pred - 1) in
  option_map out_loss
    (training_step self (audio_features, real_poses, prev) batch_nb 0) =
    Some (t_add (t_add (MSELoss pred real_poses)
                       (t_mul continuity (lit 1 100)))
                (t_mul (binary_cross_entropy_with_logits
                          (discriminator pred) (torch_ones n))
                       (lit 1 100))) /\
  option_map out_loss
    (training_step self (audio_features, real_poses, prev) batch_nb 1) =
    Some (t_div (t_add (binary_cross_entropy_with_logits
                          (discriminator real_poses) (torch_ones n))
                       (binary_cross_entropy_with_logits
                          (discriminator (detach pred)) (torch_zeros n)))
                2) /\
  lshape (torch_ones n) = [n; 1%nat] /\
  ldata (torch_ones n) = repeat one32 n /\
  ldata (torch_zeros n) = repeat zero32 n.
Proof.
  intros self pred n continuity. split; [|split; [|repeat split]].
  - cbn [training_step option_map Z.eqb]. fold pred.
    unfold generator_step. cbn [out_loss self adversarial_init hparams
                                w_cont_loss w_adv_loss].
    rewrite slices_difference. reflexivity.
  - cbn [training_step option_map Z.eqb]. fold pred.
    unfold discriminator_step. cbn [out_loss]. fold n.
    rewrite rsub_one_ones. reflexivity.
Qed.

(** *** Validation *)

(** A dictionary with string keys, in the order of its keys. *)
Definition dict (A : Type) : Type := list (string * A).

Fixpoint dict_get {A : Type} (d : dict A) (key : string) : option A :=
  match d with
  | [] => None
  | (k, v) :: rest => if String.eqb k key then Some v else dict_get rest key
  end.

(** A method returns, or a subscript raises [KeyError]. *)
Inductive outcome (A : Type) : Type :=
| Returns (a : A)
| RaisesKeyError (key : string).

Arguments Returns {A} a.
Arguments RaisesKeyError {A} key.

(** The value under ["val_loss"]: the integer it starts with, or a
    tensor. *)
Inductive value : Type :=
| PyInt (n : Z)
| Tensor (t : scalar).

(** [number + tensor], which Python resolves to the reflected addition
    of the tensor. *)
Variable t_radd : Z -> scalar -> scalar.

(** [v += l] for a tensor [l] *)
Definition iadd (v : value) (l : scalar) : value :=
  match v with
  | PyInt n => Tensor (t_radd n l)
  | Tensor t => Tensor (t_add t l)
  end.

Definition seq2seq_validation_step (self : Seq2SeqSystem)
  (batch : audio * poses * poses) (batch_nb : Z) : dict scalar :=
  let '(x, y, p) := batch in
  let pred := forward x p in
  let loss := seq2seq_calculate_loss self pred y in
  [("loss"%string, loss)].

(** The loop of [validation_epoch_end] over the outputs, from the value
    [v] of [d["val_loss"]]. *)
Fixpoint val_loss_loop (outputs : list (dict scalar)) (v : value)
  : outcome value :=
  match outputs with
  | [] => Returns v
  | out :: rest =>
      match dict_get out "loss" with
      | None => RaisesKeyError "loss"
      | Some l => val_loss_loop rest (iadd v l)
      end
  end.

Definition seq2seq_validation_epoch_end (self : Seq2SeqSystem)
  (outputs : list (dict scalar)) : outcome (dict value) :=
  match val_loss_loop outputs (PyInt 0) with
  | Returns v => Returns [("val_loss"%string, v)]
  | RaisesKeyError key => RaisesKeyError key
  end.

Definition validation_epoch_end (self : AdversarialSeq2SeqSystem)
  (outputs : list (dict scalar)) : outcome (dict value) :=
  match val_loss_loop outputs (PyInt 0) with
  | Returns v => Returns [("val_loss"%string, v)]
  | RaisesKeyError key => RaisesKeyError key
  end.

(** The sum of the losses of an epoch, added from the left to [0]. *)
Definition total_loss (losses : list scalar) : value :=
  match losses with
  | [] => PyInt 0
  | l :: rest => Tensor (fold_left t_add rest (t_radd 0 l))
  end.

Definition has_loss (out : dict scalar) : bool :=
  match dict_get out "loss" with
  | Some _ => true
  | None => false
  end.

Lemma val_loss_loop_tensor losses : forall outputs t,
  map (fun out => dict_get out "loss") outputs = map Some losses ->
  val_loss_loop outputs (Tensor t) = Returns (Tensor (fold_left t_add losses t)).
Proof.
  induction losses as [|l rest IH]; intros outputs t H;
    destruct outputs as [|out outputs]; try discriminate; [reflexivity|].
  cbn [map] in H. inversion H as [[Hl Hrest]].
  cbn [val_loss_loop]. rewrite Hl. cbn [iadd fold_left]. apply IH. exact Hrest.
Qed.

Lemma val_loss_loop_total losses outputs :
  map (fun out => dict_get out "loss") outputs = map Some losses ->
  val_loss_loop outputs (PyInt 0) = Returns (total_loss losses).
Proof.
  intros H. destruct losses as [|l rest];
    destruct outputs as [|out outputs]; try discriminate; [reflexivity|].
  cbn [map] in H. inversion H as [[Hl Hrest]].
  cbn [val_loss_loop]. rewrite Hl. cbn [iadd total_loss].
  apply val_loss_loop_tensor. exact Hrest.
Qed.

Lemma val_loss_loop_missing outputs : forall v,
  forallb has_loss outputs = false ->
  val_loss_loop outputs v = RaisesKeyError "loss".
Proof.
  induction outputs as [|out rest IH]; intros v H; [discriminate|].
  cbn [forallb] in H. cbn [val_loss_loop]. unfold has_loss in H at 1.
  destruct (dict_get out "loss") as [l|]; [|reflexivity].
  apply IH. exact H.
Qed.

Lemma losses_of_outputs outputs :
  forallb has_loss outputs = true ->
  exists losses, map (fun out => dict_get out "loss") outputs = map Some losses.
Proof.
  induction outputs as [|out rest IH]; intros H; [exists []; reflexivity|].
  cbn [forallb] in H. apply andb_true_iff in H. destruct H as (H1 & H2).
  destruct (IH H2) as (losses & Hl). unfold has_loss in H1.
  destruct (dict_get out "loss") as [l|] eqn:E; [|discriminate].
  exists (l :: losses). cbn [map]. rewrite E, Hl. reflexivity.
Qed.

(** [validation_epoch_end], of either system, returns a dictionary with
    the one key ["val_loss"] exactly when every output has a ["loss"],
    and raises [KeyError] otherwise.  The value is the integer 0 for no
    output at all, and else the tensor that adds the losses from the
    left, in the order of the outputs, the first one to the number 0. *)
Theorem validation_epoch_end_cases (s : Seq2SeqSystem)
  (self : AdversarialSeq2SeqSystem) (outputs : list (dict scalar)) :
  seq2seq_validation_epoch_end s outputs = validation_epoch_end self outputs /\
  (forallb has_loss outputs = false ->
   validation_epoch_end self outputs = RaisesKeyError "loss") /\
  (forallb has_loss outputs = true ->
   exists losses,
     map (fun out => dict_get out "loss") outputs = map Some losses /\
     validation_epoch_end self outputs
       = Returns [("val_loss"%string, total_loss losses)]) /\
  (outputs = [] ->
   validation_epoch_end self outputs = Returns [("val_loss"%string, PyInt 0)]).
Proof.
  split; [reflexivity|]. split; [|split].
  - intros H. unfold validation_epoch_end.
    rewrite (val_loss_loop_missing _ _ H). reflexivity.
  - intros H. destruct (losses_of_outputs _ H) as (losses & Hl).
    exists losses. split; [exact Hl|]. unfold validation_epoch_end.
    rewrite (val_loss_loop_total _ _ Hl). reflexivity.
  - intros ->. reflexivity.
Qed.

(** The validation loss of one batch. *)
Definition seq2seq_batch_loss (s : Seq2SeqSystem)
  (batch : audio * poses * poses) : scalar :=
  seq2seq_calculate_loss s (forward (fst (fst batch)) (snd batch))
                         (snd (fst batch)).

Definition batch_loss (self : AdversarialSeq2SeqSystem)
  (batch : audio * poses * poses) : scalar :=
  calculate_loss self (forward (fst (fst batch)) (snd batch)) (snd (fst batch)).

(** On the outputs of [validation_step] for the batches of an epoch,
    [validation_epoch_end] never raises: it returns the sum, from the
    left, of [calculate_loss] on the prediction and the target of each
    batch, whatever the numbers of the batches. *)
Theorem validation_epoch_loss (s : Seq2SeqSystem)
  (self : AdversarialSeq2SeqSystem)
  (batches : list ((audio * poses * poses) * Z)) :
  seq2seq_validation_epoch_end s
    (map (fun b => seq2seq_validation_step s (fst b) (snd b)) batches)
  = Returns [("val_loss"%string,
              total_loss (map (fun b => seq2seq_batch_loss s (fst b)) batches))]
  /\
  validation_epoch_end self
    (map (fun b => validation_step self (fst b) (snd b)) batches)
  = Returns [("val_loss"%string,
              total_loss (map (fun b => batch_loss self (fst b)) batches))].
Proof.
  split.
  - unfold seq2seq_validation_epoch_end.
    rewrite (val_loss_loop_total
               (map (fun b => seq2seq_batch_loss s (fst b)) batches));
      [reflexivity|].
    rewrite !map_map. apply map_ext. intros [[[x y] p] nb]. reflexivity.
  - unfold validation_epoch_end.
    rewrite (val_loss_loop_total
               (map (fun b => batch_loss self (fst b)) batches));
      [reflexivity|].
    rewrite !map_map. apply map_ext. intros [[[x y] p] nb]. reflexivity.
Qed.

(** [training_step] of the adversarial system returns a result for the
    optimizers 0 and 1 and [None] for any other index.  A result logs
    under ["loss"] the loss it returns, and the loss of the generator
    step is the validation loss of the batch plus the adversarial loss
    it logs, times [w_adv_loss]. *)
Theorem training_step_outputs (self : AdversarialSeq2SeqSystem)
  (batch : audio * poses * poses) (batch_nb optimizer_idx : Z) :
  (training_step self batch batch_nb optimizer_idx = None <->
   optimizer_idx <> 0 /\ optimizer_idx <> 1) /\
  (forall out,
     training_step self batch batch_nb optimizer_idx = Some out ->
     dict_get (log out) "loss" = Some (out_loss out)) /\
  (exists out adv_loss,
     training_step self batch batch_nb 0 = Some out /\
     dict_get (log out) "g_adv_loss" = Some adv_loss /\
     dict_get (validation_step self batch batch_nb) "loss"
       = Some (batch_loss self batch) /\
     out_loss out =
       t_add (batch_loss self batch)
             (t_mul adv_loss (w_adv_loss (hparams self)))).
Proof.
  destruct batch as [[x real] prev]. split; [|split].
  - cbn [training_step].
    destruct (Z.eqb_spec optimizer_idx 0) as [E0|E0];
      [split; [discriminate | lia]|].
    destruct (Z.eqb_spec optimizer_idx 1) as [E1|E1];
      [split; [discriminate | lia]|].
    split; auto.
  - intros out. cbn [training_step].
    destruct (optimizer_idx =? 0);
      [|destruct (optimizer_idx =? 1); [|discriminate]];
      intros H; inversion H; reflexivity.
  - eexists. eexists. split; [reflexivity|]. repeat split.
Qed.

End Systems.

Arguments Returns {A} a.
Arguments RaisesKeyError {A} key.
Arguments seq2seq_calculate_loss {row scalar}.
Arguments calculate_loss {row scalar}.
Arguments consecutive_differences {row}.
Arguments size0 {row}.

(** *** A small instance

    Pose tensors of one column over binary64, with the mean of the
    squared differences for [MSELoss] and the root of the sum of squares
    for [torch.norm]. *)
Module Toy.

Definition sub (a b : float) : float := SFsub prec emax a b.
Definition sqrt (a : float) : float := SFsqrt prec emax a.

Definition mse (p y : list float) : float :=
  div (accumulate (of_int 0)
         (map (fun ab => mul (sub (fst ab) (snd ab)) (sub (fst ab) (snd ab)))
              (combine p y)))
      (of_int (Z.of_nat (List.length p))).

Definition norm (p : list float) : float :=
  sqrt (accumulate (of_int 0) (map (fun a => mul a a) p)).

Definition div_int (s : float) (d : Z) : float := div s (of_int d).

Definition system : Seq2SeqSystem :=
  seq2seq_init "data/dataset/train" "data/dataset/test" 20 10.

Definition loss (p y : list float) : float :=
  seq2seq_calculate_loss sub mse norm add mul div_int system p y.

Definition ramp : list float := [of_int 1; of_int 3; of_int 6].

End Toy.

(** On three rows the differences are [2] and [3] and the loss is a
    number; on one row it is NaN. *)
Example toy_losses :
  consecutive_differences Toy.sub Toy.ramp = [of_int 2; of_int 3] /\
  is_nan (Toy.loss Toy.ramp Toy.ramp) = false /\
  ltb (of_int 0) (Toy.loss Toy.ramp Toy.ramp) = true /\
  Toy.loss [of_int 1] [of_int 1] = nan.
Proof. vm_compute. repeat split. Qed.

(** Two outputs are added up; an output without ["loss"] raises. *)
Example toy_validation_epoch_end :
  validation_epoch_end float add (fun n s => add (of_int n) s)
    (adversarial_init "" "" 20 10)
    [[("loss", of_int 1)]; [("loss", of_int 2)]]%string
  = Returns [("val_loss"%string, Tensor float (of_int 3))] /\
  validation_epoch_end float add (fun n s => add (of_int n) s)
    (adversarial_init "" "" 20 10)
    [[("loss", of_int 1)]; [("val_loss", of_int 2)]]%string
  = RaisesKeyError "loss"%string.
Proof. split; vm_compute; reflexivity. Qed.

Example hyper_parameters :
  lit 1 1000 = S754_finite false 4611686018427388 (-62) /\
  lit 1 2 = S754_finite false 4503599627370496 (-53) /\
  lit 9 10 = S754_finite false 8106479329266893 (-53) /\
  lit 1 100 = S754_finite false 5764607523034235 (-59).
Proof. vm_compute. repeat split. Qed.

Lemma calculate_loss_composition_witness :
  exists a b,
    nth_error Toy.ramp 0 = Some a /\ nth_error Toy.ramp 1 = Some b /\
    nth_error (consecutive_differences Toy.sub Toy.ramp) 0 = Some (Toy.sub b a).
Proof.
  destruct (calculate_loss_composition float float Toy.sub Toy.mse Toy.norm
              add mul Toy.div_int Toy.system "" "" 20 10 Toy.ramp Toy.ramp)
    as (_ & _ & _ & H).
  apply H. simpl. lia.
Defined.

Lemma continuity_divisor_witness :
  exists d,
    d = 2 /\ 0 < d /\
    Toy.loss Toy.ramp Toy.ramp =
    add (Toy.mse Toy.ramp Toy.ramp)
        (mul (Toy.div_int (Toy.norm (consecutive_differences Toy.sub Toy.ramp)) d)
             (lit 1 100)).
Proof.
  destruct (continuity_divisor float float Toy.sub Toy.mse Toy.norm
              add mul Toy.div_int Toy.system "" "" 20 10 Toy.ramp Toy.ramp)
    as (_ & _ & H).
  destruct H as (d & Hd & Hpos & Hs & _); [vm_compute; discriminate|].
  exists d. split; [exact Hd|]. split; [exact Hpos|]. exact Hs.
Defined.

End Seq2Seq.
